(** * The DashScope configuration resolver of [config/load_key.py]

    A shallow embedding of [_prompt_for_environment], [load_key] and
    [display_config_summary], and the properties of them that the design
    document states.

    Conventions of the embedding.
    - A Python [str] is a [string]; each character is read as a code point
      below 256, which is where [str.strip] and [str.lower] are modelled.
    - The value [json.load] returns is a [json]; a Python [dict] is an
      association list in insertion order, the order [json.dump] writes.
    - [os.environ] is a finite map from strings to strings; an assignment
      to it refuses what is not a [str], and a [str] that holds the
      character of code 0.
    - The file system says, in [write_error], whether writing [Key.json]
      back fails, and what the file holds afterwards: a write that fails
      once the file is open has emptied it.
    - The console is the list of lines still to be typed; [input] and
      [getpass.getpass] take the next line and raise [EOFError] when none is
      left.  A run that waits for ever on an endless sequence of rejected
      answers has no counterpart here: every run of the model ends.
    - Effects are threaded through a state-and-exception monad over [world]. *)

From Stdlib Require Import String Ascii List ZArith Bool Lia.
From Stdlib Require Import Floats.SpecFloat.
From stdpp Require Import base option gmap strings list fin_maps.

Import ListNotations.
#[local] Set Warnings "-register-all".
Local Open Scope string_scope.
Local Open Scope list_scope.

(** ** Python values *)

(** What [json.load] can return. *)
Inductive json : Type :=
| JNull
| JBool (b : bool)
| JInt (n : Z)
| JFloat (f : spec_float)
| JStr (s : string)
| JArr (items : list json)
| JObj (members : list (string * json)).

(** A [dict] with string keys, in insertion order. *)
Definition dict : Type := list (string * json).

(** [bool(v)]: [None], [False], zero, and the empty string, list and dict
    are false. *)
Definition truthy (v : json) : bool :=
  match v with
  | JNull => false
  | JBool b => b
  | JInt n => negb (n =? 0)%Z
  | JFloat (S754_zero _) => false
  | JFloat _ => true
  | JStr s => negb (String.eqb s "")
  | JArr items => negb (Nat.eqb (length items) 0)
  | JObj members => negb (Nat.eqb (length members) 0)
  end.

(** [d.get(k)], with [None] for a missing key. *)
Fixpoint dict_get (d : dict) (k : string) : option json :=
  match d with
  | [] => None
  | (k', v) :: rest => if String.eqb k' k then Some v else dict_get rest k
  end.

(** [bool(d.get(k))]. *)
Definition get_truthy (d : dict) (k : string) : bool :=
  match dict_get d k with
  | Some v => truthy v
  | None => false
  end.

(** [k in d]. *)
Definition dict_mem (d : dict) (k : string) : bool :=
  match dict_get d k with
  | Some _ => true
  | None => false
  end.

(** [d[k] = v]: an existing key keeps its place, a new key goes last. *)
Fixpoint dict_set (d : dict) (k : string) (v : json) : dict :=
  match d with
  | [] => [(k, v)]
  | (k', v') :: rest =>
      if String.eqb k' k then (k, v) :: rest else (k', v') :: dict_set rest k v
  end.

(** ** Strings *)

(** [str.isspace] on one character. *)
Definition is_space (c : ascii) : bool :=
  let n := nat_of_ascii c in
  (Nat.leb 9 n && Nat.leb n 13) || (Nat.leb 28 n && Nat.leb n 32)
  || Nat.eqb n 133 || Nat.eqb n 160.

Fixpoint lstrip (s : string) : string :=
  match s with
  | EmptyString => EmptyString
  | String c rest => if is_space c then lstrip rest else s
  end.

Fixpoint rstrip (s : string) : string :=
  match s with
  | EmptyString => EmptyString
  | String c rest =>
      match rstrip rest with
      | EmptyString => if is_space c then EmptyString else String c EmptyString
      | r => String c r
      end
  end.

(** [s.strip()]. *)
Definition strip (s : string) : string := rstrip (lstrip s).

(** [str.lower] on one character: A-Z, and the capital letters of the
    Latin-1 block (all of 192-222 but the multiplication sign, 215). *)
Definition lower_char (c : ascii) : ascii :=
  let n := nat_of_ascii c in
  if (Nat.leb 65 n && Nat.leb n 90)
     || (Nat.leb 192 n && Nat.leb n 222 && negb (Nat.eqb n 215))
  then ascii_of_nat (n + 32) else c.

(** [s.lower()]. *)
Fixpoint lower (s : string) : string :=
  match s with
  | EmptyString => EmptyString
  | String c rest => String (lower_char c) (lower rest)
  end.

(** The string holds the character of code 0, which no variable of the
    environment can hold. *)
Fixpoint has_nul (s : string) : bool :=
  match s with
  | EmptyString => false
  | String c rest => Nat.eqb (nat_of_ascii c) 0 || has_nul rest
  end.

Arguments has_nul : simpl never.

Fixpoint has_equals (s : string) : bool :=
  match s with
  | EmptyString => false
  | String c rest => Ascii.eqb c "="%char || has_equals rest
  end.

(** The names [os.environ] refuses: the empty one, and one that holds the
    character of code 0 or an equals sign. *)
Definition illegal_name (k : string) : bool :=
  String.eqb k "" || has_nul k || has_equals k.
Arguments illegal_name : simpl never.

(** [x in xs] for a list of strings. *)
Definition str_in (x : string) (xs : list string) : bool :=
  existsb (String.eqb x) xs.

(** [s[:n]]. *)
Definition slice_to (n : nat) (s : string) : string := substring 0 n s.

(** [s[-n:]]: the last [n] characters, the whole string when it is shorter. *)
Definition slice_last (n : nat) (s : string) : string :=
  substring (String.length s - n) n s.

(** [needle in s]. *)
Fixpoint contains (needle s : string) : bool :=
  String.prefix needle s
  || match s with
     | EmptyString => false
     | String _ rest => contains needle rest
     end.

(** ** The world the resolver runs in *)

(** The exceptions the calls of the module raise. *)
Inductive exn : Type :=
| EOFError
| JSONDecodeError
| UnicodeDecodeError
| IOError (msg : string)
| AttributeError
| TypeError
| ValueError
| KeyError (k : string).

(** What [Key.json] holds when [load_key] starts. *)
Inductive store_file : Type :=
| Missing                      (* os.path.exists is False *)
| Undecodable                  (* bytes that are not UTF-8: reading raises *)
| NotJson                      (* text json.load rejects *)
| Json (v : json).             (* json.load returns v *)

(** How writing [Key.json] back fails, when it does.  [os.makedirs] or
    [open] may raise, and then the file is not touched.  Or the file was
    opened, which empties it, and the write or the close raised: the file
    then holds what the failure left of the text, [remains]: nothing or a
    beginning of it, which is not JSON, or not even text when it ends inside
    a character. *)
Inductive write_failure : Type :=
| Refused (msg : string)
| Broken (msg : string) (remains : store_file).

Definition failure_msg (f : write_failure) : string :=
  match f with
  | Refused msg | Broken msg _ => msg
  end.

(** What the file holds after the failure. *)
Definition wreck (f : write_failure) (before : store_file) : store_file :=
  match f with
  | Refused _ => before
  | Broken _ remains => remains
  end.

(** What the rest of the process can observe of a run, in order. *)
Inductive event : Type :=
| EvPrint (line : string)
| EvInput (prompt : string)
| EvGetpass (prompt : string)
| EvWrite (content : dict)
| EvSetEnv (k v : string).

(** The two module attributes of the [dashscope] package the resolver sets. *)
Record sdk : Type := { api_key : json; api_base : json }.

Record world : Type := {
  store : store_file;
  write_error : option write_failure;   (* Some f: writing back fails as f *)
  console : list string;
  environ : gmap string string;
  dashscope : option sdk;        (* None when the import failed *)
  trace : list event
}.

Definition emit (e : event) (w : world) : world :=
  {| store := store w; write_error := write_error w; console := console w;
     environ := environ w; dashscope := dashscope w;
     trace := trace w ++ [e] |}.

Definition with_console (c : list string) (w : world) : world :=
  {| store := store w; write_error := write_error w; console := c;
     environ := environ w; dashscope := dashscope w; trace := trace w |}.

Definition with_store (f : store_file) (w : world) : world :=
  {| store := f; write_error := write_error w; console := console w;
     environ := environ w; dashscope := dashscope w; trace := trace w |}.

Definition with_environ (e : gmap string string) (w : world) : world :=
  {| store := store w; write_error := write_error w; console := console w;
     environ := e; dashscope := dashscope w; trace := trace w |}.

Definition with_dashscope (s : option sdk) (w : world) : world :=
  {| store := store w; write_error := write_error w; console := console w;
     environ := environ w; dashscope := s; trace := trace w |}.

(** ** The monad: state over [world], with exceptions *)

Inductive result (A : Type) : Type :=
| Ok (a : A)
| Raise (e : exn).
Arguments Ok {A} a.
Arguments Raise {A} e.

Definition M (A : Type) : Type := world -> result A * world.

#[global] Instance M_ret : MRet M := fun A a w => (Ok a, w).

#[global] Instance M_bind : MBind M := fun A B k m w =>
  match m w with
  | (Ok a, w') => k a w'
  | (Raise e, w') => (Raise e, w')
  end.

Definition raise {A : Type} (e : exn) : M A := fun w => (Raise e, w).

(** [try: body / except <the exceptions handler accepts>: ...]. *)
Definition try_except {A : Type} (body : M A) (handler : exn -> option (M A)) : M A :=
  fun w =>
    match body w with
    | (Ok a, w') => (Ok a, w')
    | (Raise e, w') =>
        match handler e with
        | Some h => h w'
        | None => (Raise e, w')
        end
    end.

(** ** The library calls *)

Definition print (line : string) : M unit := fun w => (Ok tt, emit (EvPrint line) w).

(** One line from the console, for [input] and [getpass.getpass]. *)
Definition read_line (ask : event) : M string := fun w =>
  match console w with
  | [] => (Raise EOFError, emit ask w)
  | line :: rest => (Ok line, with_console rest (emit ask w))
  end.

Definition input (prompt : string) : M string := read_line (EvInput prompt).
Definition getpass (prompt : string) : M string := read_line (EvGetpass prompt).

(** [os.path.exists(CONFIG_FILE_PATH)]. *)
Definition path_exists : M bool := fun w =>
  (Ok match store w with Missing => false | _ => true end, w).

(** [with open(CONFIG_FILE_PATH, 'r', encoding='utf-8') as file: json.load(file)]. *)
Definition json_load : M json := fun w =>
  match store w with
  | Missing => (Raise (IOError "No such file or directory"), w)
  | Undecodable => (Raise UnicodeDecodeError, w)
  | NotJson => (Raise JSONDecodeError, w)
  | Json v => (Ok v, w)
  end.

(** [os.makedirs], [open(CONFIG_FILE_PATH, 'w')] and [json.dump]: the file
    then holds the dict, unless one of them raises [IOError], which leaves
    the file as the failure has it. *)
Definition json_dump (d : dict) : M unit := fun w =>
  match write_error w with
  | Some f => (Raise (IOError (failure_msg f)), with_store (wreck f (store w)) w)
  | None => (Ok tt, with_store (Json (JObj d)) (emit (EvWrite d) w))
  end.

(** [os.environ[k] = v]: what is not a [str] is refused with [TypeError],
    and an illegal name or a value that holds the character of code 0 with
    [ValueError]; nothing is assigned then. *)
Definition environ_set (k : string) (v : json) : M unit := fun w =>
  match v with
  | JStr s =>
      if illegal_name k || has_nul s then (Raise ValueError, w)
      else (Ok tt, with_environ (<[k := s]> (environ w)) (emit (EvSetEnv k s) w))
  | _ => (Raise TypeError, w)
  end.

(** [d[k]]. *)
Definition getitem (d : dict) (k : string) : M json :=
  match dict_get d k with
  | Some v => mret v
  | None => raise (KeyError k)
  end.

(** The first use of [config_data] is [config_data.get]: whatever
    [json.load] returned that is not a dict has no such attribute. *)
Definition as_dict (v : json) : M dict :=
  match v with
  | JObj d => mret d
  | _ => raise AttributeError
  end.

(** [if dashscope:], the module being [None] when its import failed. *)
Definition dashscope_installed : M bool := fun w =>
  (Ok match dashscope w with Some _ => true | None => false end, w).

(** [dashscope.api_key = v] and [dashscope.api_base = v]. *)
Definition set_api_key (v : json) : M unit := fun w =>
  (Ok tt, with_dashscope
            ((fun s => {| api_key := v; api_base := api_base s |}) <$> dashscope w) w).
Definition set_api_base (v : json) : M unit := fun w =>
  (Ok tt, with_dashscope
            ((fun s => {| api_key := api_key s; api_base := v |}) <$> dashscope w) w).

(** ** Constants *)

Definition API_KEY_KEY : string := "DASHSCOPE_API_KEY".
Definition OPENAI_COMPAT_URL_KEY : string := "DASHSCOPE_API_BASE".
Definition SDK_URL_KEY : string := "DASHSCOPE_BASE_HTTP_API_URL".

Definition region_prompt : string :=
  "Are you using the Alibaba Cloud International site? (Y/N): ".
Definition key_prompt : string := "Please enter your DashScope API Key: ".

Definition msg_intl : string := "-> Environment selected: Alibaba Cloud International".
Definition msg_cn : string := "-> Environment selected: Alibaba Cloud Mainland China".
Definition msg_invalid : string := "Invalid input. Please enter 'Y' or 'N'.".
Definition msg_no_key : string := "DashScope API Key not found in config.".
Definition msg_no_env : string := "Complete environment setting not found in config.".
Definition msg_loaded : string :=
  "-> Configuration loaded into environment variables successfully.".
Definition msg_incomplete : string :=
  "Warning: Configuration is incomplete. Some features may not work correctly.".

(** ** [_prompt_for_environment] *)

(** The [while True] loop, by recursion on the lines still to be typed: each
    turn of the loop takes one.  The result is the value returned or the
    exception raised, the lines left, and what the loop printed and asked. *)
Fixpoint prompt_loop (lines : list string) : result string * list string * list event :=
  match lines with
  | [] => (Raise EOFError, [], [EvInput region_prompt])
  | line :: rest =>
      let response := lower (strip line) in
      if str_in response ["y"; "yes"] then
        (Ok "intl", rest, [EvInput region_prompt; EvPrint msg_intl])
      else if str_in response ["n"; "no"] then
        (Ok "cn", rest, [EvInput region_prompt; EvPrint msg_cn])
      else
        let '(r, rest', evs) := prompt_loop rest in
        (r, rest', EvInput region_prompt :: EvPrint msg_invalid :: evs)
  end.

Definition emits (evs : list event) (w : world) : world :=
  fold_left (fun w' e => emit e w') evs w.

Arguments emits : simpl never.

Definition _prompt_for_environment : M string := fun w =>
  let '(r, rest, evs) := prompt_loop (console w) in
  (r, with_console rest (emits evs w)).

(** The two endpoints [load_key] stores for an answer of the region prompt. *)
Definition intl_compat_url : string :=
  "https://dashscope-intl.aliyuncs.com/compatible-mode/v1".
Definition intl_sdk_url : string := "https://dashscope-intl.aliyuncs.com/api/v1".
Definition cn_compat_url : string := "https://dashscope.aliyuncs.com/compatible-mode/v1".
Definition cn_sdk_url : string := "https://dashscope.aliyuncs.com/api/v1".

(** ** [load_key] *)

Section LoadKey.

(** The absolute path of [Key.json], computed from where the module is
    installed. *)
Variable CONFIG_FILE_PATH : string.

Definition msg_corrupted : string :=
  "Warning: Config file '" +:+ CONFIG_FILE_PATH
  +:+ "' is corrupted. A new one will be created.".
Definition msg_saved : string :=
  "-> Configuration saved/updated to: " +:+ CONFIG_FILE_PATH.
Definition msg_write_failed (e : string) : string :=
  "Error: Could not write to config file: " +:+ e.

(** Step 1: read the existing configuration from [Key.json]. *)
Definition read_config : M json :=
  found ← path_exists;
  if found : bool then
    try_except json_load
      (fun e => match e with
                | JSONDecodeError => Some (print msg_corrupted;; mret (JObj []))
                | _ => None
                end)
  else mret (JObj []).

(** Step 2, the API key: asked for when [config_data.get(API_KEY_KEY)] is
    false, kept when the stripped answer is not empty.  The result is
    [config_data] and [config_changed]. *)
Definition complete_api_key (config_data : dict) : M (dict * bool) :=
  if negb (get_truthy config_data API_KEY_KEY) then
    print msg_no_key;;
    answer ← getpass key_prompt;
    let api_key := strip answer in
    if negb (String.eqb api_key "") then
      mret (dict_set config_data API_KEY_KEY (JStr api_key), true)
    else mret (config_data, false)
  else mret (config_data, false).

(** Step 2, the endpoints: both are written from one answer when either
    [get] is false. *)
Definition complete_endpoints (config_data : dict) (config_changed : bool)
  : M (dict * bool) :=
  if negb (get_truthy config_data OPENAI_COMPAT_URL_KEY)
     || negb (get_truthy config_data SDK_URL_KEY) then
    print msg_no_env;;
    env_choice ← _prompt_for_environment;
    if String.eqb env_choice "intl" then
      mret (dict_set (dict_set config_data OPENAI_COMPAT_URL_KEY (JStr intl_compat_url))
                     SDK_URL_KEY (JStr intl_sdk_url), true)
    else
      mret (dict_set (dict_set config_data OPENAI_COMPAT_URL_KEY (JStr cn_compat_url))
                     SDK_URL_KEY (JStr cn_sdk_url), true)
  else mret (config_data, config_changed).

(** Step 3: write back when the configuration was changed. *)
Definition save_config (config_data : dict) (config_changed : bool) : M unit :=
  if config_changed then
    try_except (json_dump config_data;; print msg_saved)
      (fun e => match e with
                | IOError msg => Some (print (msg_write_failed msg))
                | _ => None
                end)
  else mret tt.

(** Step 4: set the environment variables and the [dashscope] attributes. *)
Definition publish_config (config_data : dict) : M unit :=
  if forallb (dict_mem config_data) [API_KEY_KEY; OPENAI_COMPAT_URL_KEY; SDK_URL_KEY] then
    k ← getitem config_data API_KEY_KEY;
    environ_set API_KEY_KEY k;;
    b ← getitem config_data OPENAI_COMPAT_URL_KEY;
    environ_set OPENAI_COMPAT_URL_KEY b;;
    u ← getitem config_data SDK_URL_KEY;
    environ_set SDK_URL_KEY u;;
    installed ← dashscope_installed;
    (if installed : bool then
       k' ← getitem config_data API_KEY_KEY;
       set_api_key k';;
       u' ← getitem config_data SDK_URL_KEY;
       set_api_base u'
     else mret tt);;
    print msg_loaded
  else print msg_incomplete.

(** Steps 1 and 2: the configuration at the end of the resolution pass, and
    whether it was changed. *)
Definition resolve_config : M (dict * bool) :=
  loaded ← read_config;
  config_data ← as_dict loaded;
  '(config_data, config_changed) ← complete_api_key config_data;
  complete_endpoints config_data config_changed.

Definition load_key : M unit :=
  '(config_data, config_changed) ← resolve_config;
  save_config config_data config_changed;;
  publish_config config_data.

End LoadKey.

(** ** [display_config_summary] *)

(** [os.environ.get(k, default)]. *)
Definition environ_get (env : gmap string string) (k default : string) : string :=
  match env !! k with
  | Some v => v
  | None => default
  end.

(** The environment name, from the compatible URL. *)
Definition env_name (openai_compat_url : string) : string :=
  if contains "intl" openai_compat_url then "International"
  else if contains "aliyuncs.com" openai_compat_url then "Mainland China"
  else "Unknown".

(** The API key as it is displayed. *)
Definition masked_key (api_key : string) : string :=
  if Nat.ltb 8 (String.length api_key) && negb (String.eqb api_key "Not Set") then
    slice_to 4 api_key +:+ "..." +:+ slice_last 4 api_key
  else if negb (String.eqb api_key "Not Set") then "Valid" else "Not Set".

(** The four fields of the report, in the order they are printed. *)
Record summary : Type := {
  shown_key : string;
  shown_environment : string;
  shown_compat_url : string;
  shown_sdk_url : string
}.

Definition display_config_summary (env : gmap string string) : summary :=
  let api_key := environ_get env API_KEY_KEY "Not Set" in
  let openai_compat_url := environ_get env OPENAI_COMPAT_URL_KEY "Not Set" in
  let sdk_url := environ_get env SDK_URL_KEY "Not Set" in
  {| shown_key := masked_key api_key;
     shown_environment := "Alibaba Cloud " +:+ env_name openai_compat_url;
     shown_compat_url := openai_compat_url;
     shown_sdk_url := sdk_url |}.

(** A world with nothing in it but the given store and console. *)
Definition fresh (f : store_file) (lines : list string) : world :=
  {| store := f; write_error := None; console := lines; environ := ∅;
     dashscope := None; trace := [] |}.


(** ** Vocabulary of the statements *)

(** What one typed line means to the region prompt: the value returned for
    it, or [None] when it is rejected. *)
Definition answer_of (line : string) : option string :=
  let response := lower (strip line) in
  if str_in response ["y"; "yes"] then Some "intl"
  else if str_in response ["n"; "no"] then Some "cn"
  else None.

(** The line printed when an answer is accepted. *)
Definition msg_selected (choice : string) : string :=
  if String.eqb choice "intl" then msg_intl else msg_cn.

(** The pair of endpoints of a region, compatible one first. *)
Definition endpoints_of (choice : string) : string * string :=
  if String.eqb choice "intl" then (intl_compat_url, intl_sdk_url)
  else (cn_compat_url, cn_sdk_url).

(** What the prompt shows for a run of rejected lines. *)
Definition rejections (bad : list string) : list event :=
  flat_map (fun _ => [EvInput region_prompt; EvPrint msg_invalid]) bad.

Fixpoint all_space (s : string) : bool :=
  match s with
  | EmptyString => true
  | String c rest => is_space c && all_space rest
  end.

(** The three keys the resolver knows. *)
Definition recognized (k : string) : bool :=
  str_in k [API_KEY_KEY; OPENAI_COMPAT_URL_KEY; SDK_URL_KEY].

(** The members of a dict under other keys, in their order. *)
Definition extras (d : dict) : dict :=
  List.filter (fun p => negb (recognized (fst p))) d.

(** The dict the resolution starts from, for the stores [load_key] survives
    reading: a missing or unparsable file gives the empty dict. *)
Definition starting_dict (f : store_file) : option dict :=
  match f with
  | Missing | NotJson => Some []
  | Json (JObj d) => Some d
  | _ => None
  end.

(** The code's test that the configuration is complete:
    [all(key in config_data for key in [...])]. *)
Definition all_present (d : dict) : bool :=
  forallb (dict_mem d) [API_KEY_KEY; OPENAI_COMPAT_URL_KEY; SDK_URL_KEY].



(** Nothing but the console and the trace differs between two worlds. *)
Definition same_files (w w' : world) : Prop :=
  store w' = store w /\ write_error w' = write_error w
  /\ environ w' = environ w /\ dashscope w' = dashscope w.

(** The lines the key prompt takes: one when the key is asked for. *)
Definition key_lines (d : dict) (line : string) : list string :=
  if get_truthy d API_KEY_KEY then [] else [line].

(** What the key step shows. *)
Definition key_events (d : dict) : list event :=
  if get_truthy d API_KEY_KEY then [] else [EvPrint msg_no_key; EvGetpass key_prompt].

(** The dict after the key step, for the line typed at its prompt. *)
Definition with_key (d : dict) (line : string) : dict :=
  if get_truthy d API_KEY_KEY then d
  else if String.eqb (strip line) "" then d
  else dict_set d API_KEY_KEY (JStr (strip line)).

(** Whether the key step changed the dict. *)
Definition key_changed (d : dict) (line : string) : bool :=
  negb (get_truthy d API_KEY_KEY) && negb (String.eqb (strip line) "").

(** What reading the store shows. *)
Definition read_events (path : string) (f : store_file) : list event :=
  match f with
  | NotJson => [EvPrint (msg_corrupted path)]
  | _ => []
  end.

(** [needle] occurs in [s]. *)
Definition occurs_in (needle s : string) : Prop :=
  exists pre post, s = pre +:+ needle +:+ post.

(** The dict after both endpoints were stored for an answer. *)
Definition with_endpoints (d : dict) (choice : string) : dict :=
  dict_set (dict_set d OPENAI_COMPAT_URL_KEY (JStr (fst (endpoints_of choice))))
           SDK_URL_KEY (JStr (snd (endpoints_of choice))).


(** The world once the store was read: a warning was printed when the file
    was not JSON. *)
Definition after_read (path : string) (w : world) : world :=
  match store w with
  | NotJson => emit (EvPrint (msg_corrupted path)) w
  | _ => w
  end.

(** ** The module run as a script *)




(** ** Vocabulary of the further properties *)

(** Two worlds that differ in the [dashscope] module at most. *)
Definition agree (w1 w2 : world) : Prop :=
  store w1 = store w2 /\ write_error w1 = write_error w2
  /\ console w1 = console w2 /\ environ w1 = environ w2 /\ trace w1 = trace w2.

(** A computation whose result and effects, the [dashscope] module apart, do
    not depend on that module. *)
Definition respects {A : Type} (m : M A) : Prop :=
  forall w1 w2, agree w1 w2 ->
    fst (m w1) = fst (m w2) /\ agree (snd (m w1)) (snd (m w2)).

Definition head_char (s : string) : option ascii :=
  match s with
  | EmptyString => None
  | String c _ => Some c
  end.

Fixpoint last_char (s : string) : option ascii :=
  match s with
  | EmptyString => None
  | String c EmptyString => Some c
  | String _ rest => last_char rest
  end.



(** [isinstance(v, dict)]. *)
Definition is_object (v : json) : bool :=
  match v with
  | JObj _ => true
  | _ => false
  end.

(** ** Sample inputs *)

Definition sample_path : string := "/srv/app/Key.json".

(** An empty store, a key typed, then "maybe" and "YES". *)
Definition sample_world : world :=
  fresh (Json (JObj [])) ["sk-test1234"; "maybe"; "YES"].

Definition sample_dict : dict :=
  [(API_KEY_KEY, JStr "sk-test1234");
   (OPENAI_COMPAT_URL_KEY, JStr intl_compat_url);
   (SDK_URL_KEY, JStr intl_sdk_url)].

Definition sample_resolved : world :=
  Eval vm_compute in snd (resolve_config sample_path sample_world).




(** * Properties *)

(** ** Characters and strings *)

Lemma is_space_lower_char c : is_space c = true -> lower_char c = c.
Proof.
  destruct c as [[] [] [] [] [] [] [] []]; vm_compute; intros H;
    first [reflexivity | discriminate H].
Qed.

Lemma lower_char_space c : is_space (lower_char c) = is_space c.
Proof. destruct c as [[] [] [] [] [] [] [] []]; reflexivity. Qed.

Lemma lower_char_idem c : lower_char (lower_char c) = lower_char c.
Proof. destruct c as [[] [] [] [] [] [] [] []]; reflexivity. Qed.

Lemma lower_idem s : lower (lower s) = lower s.
Proof. induction s as [|c s IH]; simpl; [reflexivity|]. now rewrite lower_char_idem, IH. Qed.

Lemma lstrip_lower s : lstrip (lower s) = lower (lstrip s).
Proof.
  induction s as [|c s IH]; simpl; [reflexivity|].
  rewrite lower_char_space. destruct (is_space c); [exact IH | reflexivity].
Qed.

Lemma rstrip_lower s : rstrip (lower s) = lower (rstrip s).
Proof.
  induction s as [|c s IH]; simpl; [reflexivity|].
  rewrite IH, lower_char_space.
  destruct (rstrip s); simpl; [destruct (is_space c)|]; reflexivity.
Qed.

Lemma strip_lower s : strip (lower s) = lower (strip s).
Proof. unfold strip. now rewrite lstrip_lower, rstrip_lower. Qed.

Lemma lstrip_all_space s : all_space s = true -> lstrip s = "".
Proof.
  induction s as [|c s IH]; simpl; [reflexivity|].
  intros [Hc Hs]%andb_prop. rewrite Hc. auto.
Qed.

Lemma rstrip_all_space s : all_space s = true -> rstrip s = "".
Proof.
  induction s as [|c s IH]; simpl; [reflexivity|].
  intros [Hc Hs]%andb_prop. now rewrite (IH Hs), Hc.
Qed.

Lemma lstrip_app_space pre s : all_space pre = true -> lstrip (pre +:+ s) = lstrip s.
Proof.
  induction pre as [|c pre IH]; simpl; [reflexivity|].
  intros [Hc Hs]%andb_prop. rewrite Hc. auto.
Qed.

Lemma rstrip_app_space s post : all_space post = true -> rstrip (s +:+ post) = rstrip s.
Proof.
  intros Hp. induction s as [|c s IH]; simpl.
  - now apply rstrip_all_space.
  - now rewrite IH.
Qed.

Lemma lstrip_app_word s post :
  all_space s = false -> lstrip (s +:+ post) = lstrip s +:+ post.
Proof.
  induction s as [|c s IH]; simpl; [discriminate|].
  destruct (is_space c); simpl; [exact IH | reflexivity].
Qed.

(** Whitespace around a word does not change what [strip] returns. *)
Lemma strip_surround pre word post :
  all_space pre = true -> all_space post = true ->
  strip (pre +:+ word +:+ post) = strip word.
Proof.
  intros Hpre Hpost. unfold strip. rewrite lstrip_app_space by assumption.
  destruct (all_space word) eqn:Hw.
  - rewrite (lstrip_all_space word Hw).
    assert (H : all_space (word +:+ post) = true).
    { clear Hpre. induction word as [|c w IH]; simpl in *; [assumption|].
      apply andb_prop in Hw as [Hc Hw]. rewrite Hc. auto. }
    now rewrite (lstrip_all_space _ H).
  - rewrite lstrip_app_word by assumption. now apply rstrip_app_space.
Qed.

(** ** The world *)

Create HintDb run discriminated.
#[local] Hint Unfold emit with_console with_store with_environ with_dashscope : run.
#[local] Hint Unfold M_ret M_bind raise try_except print read_line input getpass
  path_exists json_load json_dump environ_set getitem as_dict
  dashscope_installed set_api_key set_api_base : run.

(** Unfolds the monad and the library calls, and computes. *)
Ltac run := unfold mret, mbind; autounfold with run; cbn -[str_in].

Lemma emits_fields evs w :
  emits evs w =
  {| store := store w; write_error := write_error w; console := console w;
     environ := environ w; dashscope := dashscope w; trace := trace w ++ evs |}.
Proof.
  revert w. induction evs as [|e evs IH]; intros w.
  - destruct w. unfold emits. cbn. now rewrite app_nil_r.
  - change (emits (e :: evs) w) with (emits evs (emit e w)).
    rewrite IH. cbn. now rewrite <- app_assoc.
Qed.

Lemma legal_api_key : illegal_name API_KEY_KEY = false.
Proof. reflexivity. Qed.

Lemma legal_compat_key : illegal_name OPENAI_COMPAT_URL_KEY = false.
Proof. reflexivity. Qed.

Lemma legal_sdk_key : illegal_name SDK_URL_KEY = false.
Proof. reflexivity. Qed.

(** Computes up to the next assignment to the environment, whose name is one
    of the three. *)
Ltac assign :=
  run; rewrite ?legal_api_key, ?legal_compat_key, ?legal_sdk_key; cbn [orb].

(** Runs a publication through, by cases on whether each value it assigns
    can be held. *)
Ltac assign_cases :=
  repeat (assign;
          match goal with
          | |- context [if has_nul ?s then _ else _] => destruct (has_nul s) eqn:?
          end);
  assign.

(** Closes an equation between two worlds written in different ways. *)
Ltac same_world :=
  rewrite ?emits_fields; run; rewrite <- ?app_assoc, ?app_nil_r; cbn [app]; reflexivity.

(** ** The region prompt *)

Lemma prompt_loop_cons line rest :
  prompt_loop (line :: rest) =
  match answer_of line with
  | Some choice => (Ok choice, rest, [EvInput region_prompt; EvPrint (msg_selected choice)])
  | None =>
      let '(r, rest', evs) := prompt_loop rest in
      (r, rest', EvInput region_prompt :: EvPrint msg_invalid :: evs)
  end.
Proof.
  unfold answer_of. cbn [prompt_loop].
  destruct (str_in (lower (strip line)) ["y"; "yes"]); [reflexivity|].
  destruct (str_in (lower (strip line)) ["n"; "no"]); reflexivity.
Qed.

Lemma prompt_loop_accepts bad line rest choice :
  Forall (fun l => answer_of l = None) bad ->
  answer_of line = Some choice ->
  prompt_loop (bad ++ line :: rest) =
  (Ok choice, rest,
   rejections bad ++ [EvInput region_prompt; EvPrint (msg_selected choice)]).
Proof.
  intros Hbad Hline. induction Hbad as [|b bad Hb _ IH].
  - cbn [app]. now rewrite prompt_loop_cons, Hline.
  - cbn [app]. now rewrite prompt_loop_cons, Hb, IH.
Qed.

Lemma prompt_loop_eof bad :
  Forall (fun l => answer_of l = None) bad ->
  prompt_loop bad = (Raise EOFError, [], rejections bad ++ [EvInput region_prompt]).
Proof.
  induction 1 as [|b bad Hb _ IH]; [reflexivity|].
  now rewrite prompt_loop_cons, Hb, IH.
Qed.

(** The recursion on the lines is the loop of the source: ask, then return
    on a recognized answer, or complain and start again. *)
Lemma prompt_for_environment_loop w :
  _prompt_for_environment w =
  (line ← input region_prompt;
   let response := lower (strip line) in
   if str_in response ["y"; "yes"] then print msg_intl;; mret "intl"
   else if str_in response ["n"; "no"] then print msg_cn;; mret "cn"
   else print msg_invalid;; _prompt_for_environment) w.
Proof.
  destruct w as [st we con env ds tr].
  unfold _prompt_for_environment; run.
  destruct con as [|line rest]; run.
  - now rewrite emits_fields.
  - destruct (str_in (lower (strip line)) ["y"; "yes"]); run.
    { rewrite emits_fields; run. now rewrite <- app_assoc. }
    destruct (str_in (lower (strip line)) ["n"; "no"]); run.
    { rewrite emits_fields; run. now rewrite <- app_assoc. }
    unfold _prompt_for_environment; run.
    destruct (prompt_loop rest) as [[r rest'] evs]; run.
    rewrite !emits_fields; run. now rewrite <- !app_assoc.
Qed.

(** The prompt on a console that holds rejected lines and then an accepted
    one. *)
Lemma prompt_for_environment_accepts w bad line rest choice :
  console w = bad ++ line :: rest ->
  Forall (fun l => answer_of l = None) bad ->
  answer_of line = Some choice ->
  _prompt_for_environment w =
  (Ok choice,
   with_console rest
     (emits (rejections bad ++ [EvInput region_prompt; EvPrint (msg_selected choice)]) w)).
Proof.
  intros Hc Hbad Hline. unfold _prompt_for_environment.
  now rewrite Hc, (prompt_loop_accepts bad line rest choice Hbad Hline).
Qed.

(** ** Dicts *)

Lemma dict_get_set_eq d k v : dict_get (dict_set d k v) k = Some v.
Proof.
  induction d as [|[k' v'] d IH]; cbn.
  - now rewrite String.eqb_refl.
  - destruct (String.eqb k' k) eqn:E; cbn.
    + now rewrite String.eqb_refl.
    + now rewrite E.
Qed.

Lemma dict_get_set_ne d k k' v :
  k <> k' -> dict_get (dict_set d k v) k' = dict_get d k'.
Proof.
  intros Hne. induction d as [|[k0 v0] d IH]; cbn.
  - apply String.eqb_neq in Hne. now rewrite Hne.
  - destruct (String.eqb k0 k) eqn:E; cbn.
    + apply String.eqb_eq in E. subst k0.
      apply String.eqb_neq in Hne. now rewrite Hne.
    + now rewrite IH.
Qed.

Lemma extras_set d k v : recognized k = true -> extras (dict_set d k v) = extras d.
Proof.
  intros Hk. unfold extras. induction d as [|[k' v'] d IH]; cbn [dict_set List.filter fst].
  - now rewrite Hk.
  - destruct (String.eqb k' k) eqn:E; cbn [List.filter fst].
    + apply String.eqb_eq in E. subst k'. now rewrite Hk.
    + now rewrite IH.
Qed.

Lemma with_endpoints_compat d choice :
  dict_get (with_endpoints d choice) OPENAI_COMPAT_URL_KEY
  = Some (JStr (fst (endpoints_of choice))).
Proof.
  unfold with_endpoints. rewrite dict_get_set_ne by discriminate.
  apply dict_get_set_eq.
Qed.

Lemma with_endpoints_sdk d choice :
  dict_get (with_endpoints d choice) SDK_URL_KEY = Some (JStr (snd (endpoints_of choice))).
Proof. apply dict_get_set_eq. Qed.

Lemma with_endpoints_other d choice k :
  k <> OPENAI_COMPAT_URL_KEY -> k <> SDK_URL_KEY ->
  dict_get (with_endpoints d choice) k = dict_get d k.
Proof.
  intros H1 H2. unfold with_endpoints.
  rewrite !dict_get_set_ne by congruence. reflexivity.
Qed.


(** ** The steps of [load_key] *)

Section Steps.

Variable path : string.

Lemma read_config_json w v : store w = Json v -> read_config path w = (Ok v, w).
Proof. intros H. destruct w; cbn in H; subst. reflexivity. Qed.

Lemma read_config_missing w : store w = Missing -> read_config path w = (Ok (JObj []), w).
Proof. intros H. destruct w; cbn in H; subst. reflexivity. Qed.

Lemma read_config_not_json w :
  store w = NotJson ->
  read_config path w = (Ok (JObj []), emit (EvPrint (msg_corrupted path)) w).
Proof. intros H. destruct w; cbn in H; subst. reflexivity. Qed.

Lemma read_config_undecodable w :
  store w = Undecodable -> read_config path w = (Raise UnicodeDecodeError, w).
Proof. intros H. destruct w; cbn in H; subst. reflexivity. Qed.

Lemma complete_api_key_present d w :
  get_truthy d API_KEY_KEY = true -> complete_api_key d w = (Ok (d, false), w).
Proof. intros H. unfold complete_api_key. now rewrite H. Qed.

Lemma complete_api_key_eof d w :
  get_truthy d API_KEY_KEY = false -> console w = [] ->
  complete_api_key d w = (Raise EOFError, emits [EvPrint msg_no_key; EvGetpass key_prompt] w).
Proof.
  intros H Hc. unfold complete_api_key. rewrite H.
  destruct w; cbn in Hc; subst. same_world.
Qed.

Lemma complete_api_key_kept d w line rest :
  get_truthy d API_KEY_KEY = false -> console w = line :: rest ->
  strip line <> "" ->
  complete_api_key d w =
  (Ok (dict_set d API_KEY_KEY (JStr (strip line)), true),
   with_console rest (emits [EvPrint msg_no_key; EvGetpass key_prompt] w)).
Proof.
  intros H Hc Hne. unfold complete_api_key. rewrite H.
  destruct w; cbn in Hc; subst. run.
  apply String.eqb_neq in Hne. rewrite Hne. same_world.
Qed.

Lemma complete_api_key_declined d w line rest :
  get_truthy d API_KEY_KEY = false -> console w = line :: rest ->
  strip line = "" ->
  complete_api_key d w =
  (Ok (d, false), with_console rest (emits [EvPrint msg_no_key; EvGetpass key_prompt] w)).
Proof.
  intros H Hc He. unfold complete_api_key. rewrite H.
  destruct w; cbn in Hc; subst. run. rewrite He. same_world.
Qed.

Lemma complete_endpoints_present d changed w :
  get_truthy d OPENAI_COMPAT_URL_KEY = true -> get_truthy d SDK_URL_KEY = true ->
  complete_endpoints d changed w = (Ok (d, changed), w).
Proof. intros H1 H2. unfold complete_endpoints. now rewrite H1, H2. Qed.

Lemma complete_endpoints_asked d changed w :
  get_truthy d OPENAI_COMPAT_URL_KEY && get_truthy d SDK_URL_KEY = false ->
  complete_endpoints d changed w =
  match _prompt_for_environment (emit (EvPrint msg_no_env) w) with
  | (Ok choice, w') => (Ok (with_endpoints d choice, true), w')
  | (Raise e, w') => (Raise e, w')
  end.
Proof.
  intros H. unfold complete_endpoints.
  replace (negb (get_truthy d OPENAI_COMPAT_URL_KEY) || negb (get_truthy d SDK_URL_KEY))
    with true by (rewrite <- negb_andb, H; reflexivity).
  unfold mbind, M_bind, print. cbv beta iota.
  destruct (_prompt_for_environment _) as [[choice|e] w']; [|reflexivity].
  unfold with_endpoints, endpoints_of.
  destruct (String.eqb choice "intl"); reflexivity.
Qed.

Lemma save_config_unchanged d w : save_config path d false w = (Ok tt, w).
Proof. reflexivity. Qed.

Lemma save_config_written d w :
  write_error w = None ->
  save_config path d true w =
  (Ok tt, emit (EvPrint (msg_saved path)) (with_store (Json (JObj d)) (emit (EvWrite d) w))).
Proof. intros H. destruct w; cbn in H; subst. reflexivity. Qed.

Lemma save_config_failed d w f :
  write_error w = Some f ->
  save_config path d true w =
  (Ok tt, emit (EvPrint (msg_write_failed (failure_msg f)))
               (with_store (wreck f (store w)) w)).
Proof. intros H. destruct w; cbn in H; subst. reflexivity. Qed.

End Steps.


Lemma get_truthy_absent d k : dict_get d k = None -> get_truthy d k = false.
Proof. intros H. unfold get_truthy. now rewrite H. Qed.


Lemma publish_config_incomplete d w :
  forallb (dict_mem d) [API_KEY_KEY; OPENAI_COMPAT_URL_KEY; SDK_URL_KEY] = false ->
  publish_config d w = (Ok tt, emit (EvPrint msg_incomplete) w).
Proof. intros H. unfold publish_config. now rewrite H. Qed.

(** A value that is not a [str] under the API key stops the publication at
    its first assignment. *)
Lemma publish_config_type_error d w v :
  dict_get d API_KEY_KEY = Some v ->
  dict_mem d OPENAI_COMPAT_URL_KEY = true -> dict_mem d SDK_URL_KEY = true ->
  (forall s, v <> JStr s) ->
  publish_config d w = (Raise TypeError, w).
Proof.
  intros Hk Hb Hu Hv. unfold publish_config. cbn [forallb].
  rewrite Hb, Hu. unfold dict_mem, getitem. rewrite Hk. run.
  destruct v; try reflexivity. now destruct (Hv s).
Qed.


(** ** Runs of the resolution pass *)

Section Runs.

Variable path : string.

Lemma resolve_config_start w d :
  starting_dict (store w) = Some d ->
  resolve_config path w =
  match complete_api_key d (after_read path w) with
  | (Ok (d1, c1), w1) => complete_endpoints d1 c1 w1
  | (Raise e, w1) => (Raise e, w1)
  end.
Proof.
  intros H. unfold resolve_config, after_read, mbind, M_bind. cbv beta iota.
  destruct (store w) as [| | |v] eqn:Hs; try discriminate H.
  - injection H as <-. rewrite (read_config_missing path w Hs). cbn [as_dict].
    unfold mret, M_ret. now destruct (complete_api_key [] w) as [[[d1 c1]|e] w1].
  - injection H as <-. rewrite (read_config_not_json path w Hs). cbn [as_dict].
    unfold mret, M_ret. now destruct (complete_api_key [] _) as [[[d1 c1]|e] w1].
  - destruct v; try discriminate H. injection H as <-.
    rewrite (read_config_json path w _ Hs). cbn [as_dict].
    unfold mret, M_ret. now destruct (complete_api_key _ w) as [[[d1 c1]|e] w1].
Qed.

(** A store that holds JSON other than an object stops the resolver at the
    first [config_data.get]. *)
Lemma resolve_config_not_a_dict w v :
  store w = Json v -> (forall d, v <> JObj d) ->
  resolve_config path w = (Raise AttributeError, w).
Proof.
  intros Hs Hv. unfold resolve_config, mbind, M_bind. cbv beta iota.
  rewrite (read_config_json path w _ Hs).
  destruct v; try reflexivity. now destruct (Hv members).
Qed.

Lemma load_key_resolved w d c w1 :
  resolve_config path w = (Ok (d, c), w1) ->
  load_key path w =
  match save_config path d c w1 with
  | (Ok _, w2) => publish_config d w2
  | (Raise e, w2) => (Raise e, w2)
  end.
Proof.
  intros H. unfold load_key, mbind, M_bind. cbv beta iota. rewrite H.
  now destruct (save_config path d c w1) as [[[]|e] w2].
Qed.

Lemma load_key_raised w e w1 :
  resolve_config path w = (Raise e, w1) -> load_key path w = (Raise e, w1).
Proof. intros H. unfold load_key, mbind, M_bind. cbv beta iota. now rewrite H. Qed.

(** What the key step can return. *)
Lemma complete_api_key_inv d w d1 c1 w1 :
  complete_api_key d w = (Ok (d1, c1), w1) ->
  (get_truthy d API_KEY_KEY = true /\ d1 = d /\ c1 = false /\ w1 = w)
  \/ (get_truthy d API_KEY_KEY = false /\
      exists line rest,
        console w = line :: rest
        /\ w1 = with_console rest (emits [EvPrint msg_no_key; EvGetpass key_prompt] w)
        /\ ((strip line = "" /\ d1 = d /\ c1 = false)
            \/ (strip line <> "" /\ d1 = dict_set d API_KEY_KEY (JStr (strip line))
                /\ c1 = true))).
Proof.
  intros H. destruct (get_truthy d API_KEY_KEY) eqn:Hk.
  - rewrite complete_api_key_present in H by assumption.
    injection H as <- <- <-. left. auto.
  - right. split; [reflexivity|].
    destruct (console w) as [|line rest] eqn:Hc.
    + rewrite complete_api_key_eof in H by assumption. discriminate H.
    + exists line, rest. split; [reflexivity|].
      destruct (String.eqb (strip line) "") eqn:He.
      * apply String.eqb_eq in He.
        rewrite (complete_api_key_declined d w line rest) in H by assumption.
        injection H as <- <- <-. auto.
      * apply String.eqb_neq in He.
        rewrite (complete_api_key_kept d w line rest) in H by assumption.
        injection H as <- <- <-. auto.
Qed.

(** The key step leaves the endpoints and the other members alone. *)
Lemma complete_api_key_frame d w d1 c1 w1 :
  complete_api_key d w = (Ok (d1, c1), w1) ->
  (forall k, k <> API_KEY_KEY -> dict_get d1 k = dict_get d k)
  /\ extras d1 = extras d.
Proof.
  intros H. apply complete_api_key_inv in H
    as [(_ & -> & _) | (_ & line & rest & _ & _ & [(_ & -> & _) | (_ & -> & _)])];
    try (split; [reflexivity | reflexivity]).
  split.
  - intros k Hk. apply dict_get_set_ne. congruence.
  - now apply extras_set.
Qed.

(** What the endpoint step can return. *)
Lemma complete_endpoints_inv d c w d1 c1 w1 :
  complete_endpoints d c w = (Ok (d1, c1), w1) ->
  (get_truthy d OPENAI_COMPAT_URL_KEY = true /\ get_truthy d SDK_URL_KEY = true
   /\ d1 = d /\ c1 = c /\ w1 = w)
  \/ (get_truthy d OPENAI_COMPAT_URL_KEY && get_truthy d SDK_URL_KEY = false
      /\ exists choice,
           _prompt_for_environment (emit (EvPrint msg_no_env) w) = (Ok choice, w1)
           /\ d1 = with_endpoints d choice /\ c1 = true).
Proof.
  intros H.
  destruct (get_truthy d OPENAI_COMPAT_URL_KEY && get_truthy d SDK_URL_KEY) eqn:E.
  - apply andb_prop in E as [E1 E2].
    rewrite complete_endpoints_present in H by assumption.
    injection H as <- <- <-. left. auto.
  - right. split; [reflexivity|].
    rewrite complete_endpoints_asked in H by assumption.
    destruct (_prompt_for_environment _) as [[choice|e] w'] eqn:Hp; [|discriminate H].
    injection H as <- <- <-. exists choice. auto.
Qed.

(** The prompt returns one of its two values. *)
Lemma prompt_loop_choice lines choice rest evs :
  prompt_loop lines = (Ok choice, rest, evs) -> choice = "intl" \/ choice = "cn".
Proof.
  revert choice rest evs. induction lines as [|line lines IH]; intros choice rest evs H.
  - discriminate H.
  - cbn [prompt_loop] in H.
    destruct (str_in (lower (strip line)) ["y"; "yes"]).
    { injection H as <- _ _. now left. }
    destruct (str_in (lower (strip line)) ["n"; "no"]).
    { injection H as <- _ _. now right. }
    destruct (prompt_loop lines) as [[r rest'] evs'].
    injection H as -> <- _. eauto.
Qed.

Lemma prompt_for_environment_choice w choice w1 :
  _prompt_for_environment w = (Ok choice, w1) -> choice = "intl" \/ choice = "cn".
Proof.
  unfold _prompt_for_environment.
  destruct (prompt_loop (console w)) as [[r rest] evs] eqn:Hp.
  intros H. injection H as -> _. eauto using prompt_loop_choice.
Qed.

End Runs.


Lemma with_endpoints_truthy d choice :
  get_truthy (with_endpoints d choice) OPENAI_COMPAT_URL_KEY = true
  /\ get_truthy (with_endpoints d choice) SDK_URL_KEY = true.
Proof.
  unfold get_truthy. rewrite with_endpoints_compat, with_endpoints_sdk.
  unfold endpoints_of. now destruct (String.eqb choice "intl").
Qed.

Lemma get_truthy_ext d1 d2 k :
  dict_get d1 k = dict_get d2 k -> get_truthy d1 k = get_truthy d2 k.
Proof. unfold get_truthy. now intros ->. Qed.

Section Resolved.

Variable path : string.

(** A resolution pass that returns started from a dict. *)
Lemma resolve_config_ok_start w r w1 :
  resolve_config path w = (Ok r, w1) -> exists d, starting_dict (store w) = Some d.
Proof.
  intros H. destruct (store w) as [| | |v] eqn:Hs; cbn; eauto.
  - unfold resolve_config, mbind, M_bind in H. cbv beta iota in H.
    rewrite (read_config_undecodable path w Hs) in H. discriminate H.
  - destruct v; eauto;
      rewrite (resolve_config_not_a_dict path w _ Hs) in H by discriminate;
      discriminate H.
Qed.

(** At the end of a resolution pass both endpoints are there. *)
Lemma resolve_config_endpoints w d c w1 :
  resolve_config path w = (Ok (d, c), w1) ->
  get_truthy d OPENAI_COMPAT_URL_KEY = true /\ get_truthy d SDK_URL_KEY = true.
Proof.
  intros H. destruct (resolve_config_ok_start _ _ _ H) as [d0 Hd0].
  rewrite (resolve_config_start path w d0 Hd0) in H.
  destruct (complete_api_key d0 _) as [[[d1 c1]|e] w0]; [|discriminate H].
  apply complete_endpoints_inv in H as [(H1 & H2 & -> & _) | (_ & choice & _ & -> & _)].
  - auto.
  - apply with_endpoints_truthy.
Qed.

End Resolved.


(** ** What the region prompt accepts *)

Lemma str_in_2 x a b : str_in x [a; b] = true <-> x = a \/ x = b.
Proof.
  unfold str_in. cbn. rewrite orb_false_r, orb_true_iff, !String.eqb_eq. reflexivity.
Qed.

Lemma answer_of_intl line :
  answer_of line = Some "intl" <-> lower (strip line) = "y" \/ lower (strip line) = "yes".
Proof.
  rewrite <- str_in_2. unfold answer_of.
  destruct (str_in (lower (strip line)) ["y"; "yes"]).
  - split; reflexivity.
  - destruct (str_in (lower (strip line)) ["n"; "no"]); split; discriminate.
Qed.

Lemma answer_of_cn line :
  answer_of line = Some "cn" <-> lower (strip line) = "n" \/ lower (strip line) = "no".
Proof.
  rewrite <- str_in_2. unfold answer_of.
  destruct (str_in (lower (strip line)) ["y"; "yes"]) eqn:Ey.
  - apply str_in_2 in Ey. split; [discriminate|].
    intros Hn%str_in_2. destruct Ey as [Ey|Ey], Hn as [Hn|Hn]; congruence.
  - destruct (str_in (lower (strip line)) ["n"; "no"]); split;
      first [reflexivity | discriminate].
Qed.

Lemma answer_of_none line :
  answer_of line = None <->
  ~ In (lower (strip line)) ["y"; "yes"; "n"; "no"].
Proof.
  unfold answer_of.
  destruct (str_in (lower (strip line)) ["y"; "yes"]) eqn:Ey.
  { apply str_in_2 in Ey. split; [discriminate|]. intros H. destruct H.
    destruct Ey as [Ey|Ey]; rewrite Ey; cbn; auto. }
  destruct (str_in (lower (strip line)) ["n"; "no"]) eqn:En.
  { apply str_in_2 in En. split; [discriminate|]. intros H. destruct H.
    destruct En as [En|En]; rewrite En; cbn; auto. }
  split; [|reflexivity]. intros _ H. cbn in H.
  assert (Hy : str_in (lower (strip line)) ["y"; "yes"] = true
               \/ str_in (lower (strip line)) ["n"; "no"] = true).
  { rewrite !str_in_2. destruct H as [H|[H|[H|[H|[]]]]]; symmetry in H; auto. }
  destruct Hy; congruence.
Qed.

Lemma answer_of_surround pre word post :
  all_space pre = true -> all_space post = true ->
  answer_of (pre +:+ word +:+ post) = answer_of word.
Proof. intros Hpre Hpost. unfold answer_of. now rewrite strip_surround. Qed.

Lemma answer_of_case word word' :
  lower word = lower word' -> answer_of word = answer_of word'.
Proof.
  intros H. unfold answer_of.
  now rewrite <- (lower_idem (strip word)), <- (lower_idem (strip word')),
    <- !strip_lower, H.
Qed.


(** ** What each step leaves alone *)

Lemma same_files_refl w : same_files w w.
Proof. unfold same_files. auto. Qed.

Lemma same_files_trans w1 w2 w3 : same_files w1 w2 -> same_files w2 w3 -> same_files w1 w3.
Proof. unfold same_files. intros (-> & -> & -> & ->) (-> & -> & -> & ->). auto. Qed.

Lemma same_files_emits w evs c : same_files w (with_console c (emits evs w)).
Proof. rewrite emits_fields. unfold same_files. cbn. auto. Qed.

Lemma same_files_emits_only w evs : same_files w (emits evs w).
Proof. rewrite emits_fields. unfold same_files. cbn. auto. Qed.

Lemma same_files_emit w e : same_files w (emit e w).
Proof. unfold same_files. cbn. auto. Qed.

Lemma prompt_for_environment_files w r w' :
  _prompt_for_environment w = (r, w') -> same_files w w'.
Proof.
  unfold _prompt_for_environment.
  destruct (prompt_loop (console w)) as [[r0 rest] evs].
  intros H. injection H as _ <-. apply same_files_emits.
Qed.

Section Frames.

Variable path : string.

Lemma read_config_files w r w' : read_config path w = (r, w') -> same_files w w'.
Proof.
  destruct (store w) eqn:Hs.
  - rewrite read_config_missing by assumption. intros [= _ <-]. apply same_files_refl.
  - rewrite read_config_undecodable by assumption. intros [= _ <-]. apply same_files_refl.
  - rewrite read_config_not_json by assumption. intros [= _ <-]. apply same_files_emit.
  - rewrite (read_config_json path w v) by assumption. intros [= _ <-].
    apply same_files_refl.
Qed.

Lemma complete_api_key_files d w r w' :
  complete_api_key d w = (r, w') -> same_files w w'.
Proof.
  destruct (get_truthy d API_KEY_KEY) eqn:Hk.
  { rewrite complete_api_key_present by assumption. intros [= _ <-].
    apply same_files_refl. }
  destruct (console w) as [|line rest] eqn:Hc.
  { rewrite complete_api_key_eof by assumption. intros [= _ <-].
    apply same_files_emits_only. }
  destruct (String.eqb (strip line) "") eqn:He.
  - apply String.eqb_eq in He.
    rewrite (complete_api_key_declined d w line rest) by assumption.
    intros [= _ <-]. apply same_files_emits.
  - apply String.eqb_neq in He.
    rewrite (complete_api_key_kept d w line rest) by assumption.
    intros [= _ <-]. apply same_files_emits.
Qed.

Lemma complete_endpoints_files d c w r w' :
  complete_endpoints d c w = (r, w') -> same_files w w'.
Proof.
  destruct (get_truthy d OPENAI_COMPAT_URL_KEY && get_truthy d SDK_URL_KEY) eqn:E.
  - apply andb_prop in E as [E1 E2].
    rewrite complete_endpoints_present by assumption. intros [= _ <-].
    apply same_files_refl.
  - rewrite complete_endpoints_asked by assumption.
    destruct (_prompt_for_environment _) as [[choice|e] w1] eqn:Hp;
      intros [= _ <-];
      apply (same_files_trans _ (emit (EvPrint msg_no_env) w) _ (same_files_emit _ _));
      eauto using prompt_for_environment_files.
Qed.

Lemma resolve_config_files w r w' : resolve_config path w = (r, w') -> same_files w w'.
Proof.
  unfold resolve_config, mbind, M_bind. cbv beta iota.
  destruct (read_config path w) as [[v|e] w0] eqn:H0; [|intros [= _ <-]; eauto using read_config_files].
  apply read_config_files in H0.
  destruct v; cbn [as_dict]; unfold raise, mret, M_ret; try (intros [= _ <-]; exact H0).
  destruct (complete_api_key members w0) as [[[d1 c1]|e] w1] eqn:H1;
    [|intros [= _ <-]; eauto using same_files_trans, complete_api_key_files].
  apply complete_api_key_files in H1. intros H2%complete_endpoints_files.
  eauto using same_files_trans.
Qed.

(** Writing back never raises; the store is then as it was when nothing was
    to be written, holds the dict when the write succeeded, and is what the
    failure left otherwise. *)
Lemma save_config_ok d c w :
  exists w2,
    save_config path d c w = (Ok tt, w2)
    /\ console w2 = console w /\ environ w2 = environ w /\ dashscope w2 = dashscope w
    /\ write_error w2 = write_error w
    /\ ((c = false /\ store w2 = store w)
        \/ (c = true /\ write_error w = None /\ store w2 = Json (JObj d))
        \/ (c = true /\ exists f, write_error w = Some f /\ store w2 = wreck f (store w))).
Proof.
  destruct c.
  - destruct (write_error w) as [f|] eqn:Hw.
    + rewrite (save_config_failed path d w f Hw). eexists. split; [reflexivity|].
      cbn. rewrite Hw. repeat split. right. right. eauto.
    + rewrite (save_config_written path d w Hw). eexists. split; [reflexivity|].
      cbn. rewrite Hw. repeat split. right. left. auto.
  - rewrite save_config_unchanged. eexists. split; [reflexivity|]. repeat split. auto.
Qed.

(** Publishing touches neither the store nor the console. *)
Lemma publish_config_frame d w r w' :
  publish_config d w = (r, w') ->
  store w' = store w /\ console w' = console w /\ write_error w' = write_error w.
Proof.
  destruct w as [st we con env ds tr]. unfold publish_config, getitem, dict_mem.
  cbn [forallb].
  destruct (dict_get d API_KEY_KEY) as [vk|];
    destruct (dict_get d OPENAI_COMPAT_URL_KEY) as [vb|];
    destruct (dict_get d SDK_URL_KEY) as [vu|];
    try (run; intros [= _ <-]; cbn; now auto).
  destruct vk, vb, vu, ds; assign_cases; intros [= _ <-]; cbn; auto.
Qed.

End Frames.


(** ** A whole resolution pass that asks for the region *)

Section Pass.

Variable path : string.

Lemma after_read_fields w :
  after_read path w =
  {| store := store w; write_error := write_error w; console := console w;
     environ := environ w; dashscope := dashscope w;
     trace := trace w ++ read_events path (store w) |}.
Proof.
  unfold after_read, read_events. destruct w as [st we con env ds tr]; cbn.
  destruct st; cbn; now rewrite ?app_nil_r.
Qed.

Lemma complete_api_key_run d w line rest :
  console w = key_lines d line ++ rest ->
  complete_api_key d w =
  (Ok (with_key d line, key_changed d line), with_console rest (emits (key_events d) w)).
Proof.
  unfold key_lines, with_key, key_changed, key_events. intros Hc.
  destruct (get_truthy d API_KEY_KEY) eqn:Hk; cbn [app negb andb] in *.
  - rewrite complete_api_key_present by assumption.
    destruct w; cbn in Hc; subst. same_world.
  - destruct (String.eqb (strip line) "") eqn:He; cbn [negb].
    + apply String.eqb_eq in He.
      now rewrite (complete_api_key_declined d w line rest).
    + apply String.eqb_neq in He.
      now rewrite (complete_api_key_kept d w line rest).
Qed.

Lemma with_key_frame d line k :
  k <> API_KEY_KEY -> dict_get (with_key d line) k = dict_get d k.
Proof.
  intros Hk. unfold with_key. destruct (get_truthy d API_KEY_KEY); [reflexivity|].
  destruct (String.eqb (strip line) ""); [reflexivity|].
  apply dict_get_set_ne. congruence.
Qed.

Lemma extras_with_key d line : extras (with_key d line) = extras d.
Proof.
  unfold with_key. destruct (get_truthy d API_KEY_KEY); [reflexivity|].
  destruct (String.eqb (strip line) ""); [reflexivity|]. now apply extras_set.
Qed.

(** The pass from a dict whose pair of endpoints is incomplete, on a console
    that answers the key prompt (when it is shown) and then, after any
    number of rejected lines, the region prompt. *)
Lemma resolve_config_run w d kl bad line rest choice :
  starting_dict (store w) = Some d ->
  get_truthy d OPENAI_COMPAT_URL_KEY && get_truthy d SDK_URL_KEY = false ->
  console w = key_lines d kl ++ bad ++ line :: rest ->
  Forall (fun l => answer_of l = None) bad ->
  answer_of line = Some choice ->
  resolve_config path w =
  (Ok (with_endpoints (with_key d kl) choice, true),
   {| store := store w; write_error := write_error w; console := rest;
      environ := environ w; dashscope := dashscope w;
      trace := trace w ++ read_events path (store w) ++ key_events d
               ++ [EvPrint msg_no_env] ++ rejections bad
               ++ [EvInput region_prompt; EvPrint (msg_selected choice)] |}).
Proof.
  intros Hd Hinc Hc Hbad Hline.
  rewrite (resolve_config_start path w d Hd).
  rewrite (complete_api_key_run d _ kl (bad ++ line :: rest))
    by (rewrite after_read_fields; exact Hc).
  rewrite complete_endpoints_asked.
  2:{ rewrite !(get_truthy_ext (with_key d kl) d) by (apply with_key_frame; discriminate).
      exact Hinc. }
  rewrite (prompt_for_environment_accepts _ bad line rest choice)
    by (rewrite ?emits_fields, ?after_read_fields; first [reflexivity | assumption]).
  rewrite !emits_fields, after_read_fields. cbn. f_equal. f_equal.
  now rewrite <- !app_assoc.
Qed.

End Pass.


Lemma recognized_false k :
  recognized k = false ->
  k <> API_KEY_KEY /\ k <> OPENAI_COMPAT_URL_KEY /\ k <> SDK_URL_KEY.
Proof.
  unfold recognized, str_in. cbn. intros H.
  apply orb_false_elim in H as [H1 H]. apply orb_false_elim in H as [H2 H].
  apply orb_false_elim in H as [H3 _].
  apply String.eqb_neq in H1, H2, H3. auto.
Qed.

Section Merge.

Variable path : string.



End Merge.


(** ** Substrings *)

Lemma str_length_app a b :
  String.length (a +:+ b) = String.length a + String.length b.
Proof. induction a as [|c a IH]; simpl; [reflexivity|]. f_equal. exact IH. Qed.

Lemma append_cons c a b : String c a +:+ b = String c (a +:+ b).
Proof. reflexivity. Qed.

Lemma prefix_occurs needle s :
  String.prefix needle s = true <-> exists post, s = needle +:+ post.
Proof.
  revert s. induction needle as [|a needle IH]; intros s.
  - destruct s; cbn; split; eauto.
  - destruct s as [|b s]; cbn.
    + split; [discriminate | intros [post H]; discriminate H].
    + destruct (ascii_dec a b) as [->|Hne].
      * rewrite IH. split; intros [post H]; exists post;
          rewrite append_cons in *; congruence.
      * split; [discriminate | intros [post H]; rewrite append_cons in H; congruence].
Qed.

Lemma contains_prefix needle s :
  String.prefix needle s = true -> contains needle s = true.
Proof. destruct s; cbn [contains]; now intros ->. Qed.

(** The test [needle in s] of the code is the occurrence of [needle]
    somewhere in [s]. *)
Lemma contains_occurs needle s : contains needle s = true <-> occurs_in needle s.
Proof.
  unfold occurs_in. split.
  - induction s as [|c s IH]; cbn [contains]; intros H; apply orb_prop in H as [H|H].
    + apply prefix_occurs in H as [post ->]. now exists "", post.
    + discriminate H.
    + apply prefix_occurs in H as [post ->]. now exists "", post.
    + destruct (IH H) as (pre & post & ->). now exists (String c pre), post.
  - intros (pre & post & ->). induction pre as [|c pre IH].
    + apply contains_prefix, prefix_occurs. now exists post.
    + rewrite append_cons. cbn [contains]. rewrite IH. apply orb_true_r.
Qed.

Lemma contains_false needle s : contains needle s = false <-> ~ occurs_in needle s.
Proof.
  rewrite <- contains_occurs. destruct (contains needle s); split;
    first [discriminate | congruence | reflexivity | tauto].
Qed.

Lemma substring_full s : substring 0 (String.length s) s = s.
Proof. induction s as [|c s IH]; cbn; [reflexivity|]. now rewrite IH. Qed.

Lemma slice_to_prefix n s :
  n <= String.length s ->
  String.length (slice_to n s) = n /\ exists t, s = slice_to n s +:+ t.
Proof.
  unfold slice_to. revert s. induction n as [|n IH]; intros s Hn.
  - destruct s; cbn; eauto.
  - destruct s as [|c s]; cbn in *; [lia|].
    destruct (IH s ltac:(lia)) as [Hlen [t Ht]]. split; [now rewrite Hlen|].
    exists t. now rewrite append_cons, <- Ht.
Qed.

Lemma substring_tail k s :
  k <= String.length s ->
  String.length (substring k (String.length s - k) s) = String.length s - k
  /\ exists t, s = t +:+ substring k (String.length s - k) s.
Proof.
  revert s. induction k as [|k IH]; intros s Hk.
  - rewrite Nat.sub_0_r, substring_full. split; [reflexivity|]. now exists "".
  - destruct s as [|c s]; cbn in *; [lia|].
    destruct (IH s ltac:(lia)) as [Hlen [t Ht]]. split; [exact Hlen|].
    exists (String c t). now rewrite append_cons, <- Ht.
Qed.

Lemma slice_last_suffix n s :
  n <= String.length s ->
  String.length (slice_last n s) = n /\ exists t, s = t +:+ slice_last n s.
Proof.
  intros Hn. unfold slice_last.
  destruct (substring_tail (String.length s - n) s ltac:(lia)) as [Hlen Ht].
  replace (String.length s - (String.length s - n)) with n in * by lia. auto.
Qed.

Lemma masked_key_long key :
  8 < String.length key ->
  masked_key key = slice_to 4 key +:+ "..." +:+ slice_last 4 key.
Proof.
  intros Hlen. unfold masked_key.
  apply Nat.ltb_lt in Hlen as Hb. rewrite Hb.
  destruct (String.eqb key "Not Set") eqn:E; [|reflexivity].
  apply String.eqb_eq in E. subst key. cbn in Hlen. lia.
Qed.

Lemma masked_key_short key :
  String.length key <= 8 -> key <> "Not Set" -> masked_key key = "Valid".
Proof.
  intros Hlen Hne. unfold masked_key.
  apply Nat.ltb_ge in Hlen. rewrite Hlen.
  apply String.eqb_neq in Hne. now rewrite Hne.
Qed.

Lemma masked_key_length key : 8 < String.length key -> String.length (masked_key key) = 11.
Proof.
  intros Hlen. rewrite masked_key_long by assumption.
  destruct (slice_to_prefix 4 key ltac:(lia)) as [H1 _].
  destruct (slice_last_suffix 4 key ltac:(lia)) as [H2 _].
  rewrite !str_length_app, H1, H2. reflexivity.
Qed.


Section Completion.

Variable path : string.



End Completion.

(** * The claims *)

Section Claims.

Variable path : string.



(** C2. Whenever a resolution pass sets an endpoint it sets both, from the
    one value the region prompt returned, to the literal pair of that region;
    otherwise it leaves both as they were.  Resolving again, from a store
    that holds the result or with the same answer from another store, gives
    the same pair. *)
Theorem endpoints_set_together w d d' changed w' :
  starting_dict (store w) = Some d ->
  resolve_config path w = (Ok (d', changed), w') ->
  ((get_truthy d OPENAI_COMPAT_URL_KEY = true /\ get_truthy d SDK_URL_KEY = true
    /\ dict_get d' OPENAI_COMPAT_URL_KEY = dict_get d OPENAI_COMPAT_URL_KEY
    /\ dict_get d' SDK_URL_KEY = dict_get d SDK_URL_KEY)
   \/ exists w1 choice,
        _prompt_for_environment w1 = (Ok choice, w')
        /\ ((choice = "intl"
             /\ dict_get d' OPENAI_COMPAT_URL_KEY
                = Some (JStr "https://dashscope-intl.aliyuncs.com/compatible-mode/v1")
             /\ dict_get d' SDK_URL_KEY
                = Some (JStr "https://dashscope-intl.aliyuncs.com/api/v1"))
            \/ (choice = "cn"
                /\ dict_get d' OPENAI_COMPAT_URL_KEY
                   = Some (JStr "https://dashscope.aliyuncs.com/compatible-mode/v1")
                /\ dict_get d' SDK_URL_KEY
                   = Some (JStr "https://dashscope.aliyuncs.com/api/v1")))
        /\ (forall d0 c0 w0 d0' c0' w0',
              get_truthy d0 OPENAI_COMPAT_URL_KEY && get_truthy d0 SDK_URL_KEY = false ->
              _prompt_for_environment (emit (EvPrint msg_no_env) w0) = (Ok choice, w0') ->
              complete_endpoints d0 c0 w0 = (Ok (d0', c0'), w0') ->
              dict_get d0' OPENAI_COMPAT_URL_KEY = dict_get d' OPENAI_COMPAT_URL_KEY
              /\ dict_get d0' SDK_URL_KEY = dict_get d' SDK_URL_KEY))
  /\ (forall w2 d2 c2 w2',
        store w2 = Json (JObj d') ->
        resolve_config path w2 = (Ok (d2, c2), w2') ->
        dict_get d2 OPENAI_COMPAT_URL_KEY = dict_get d' OPENAI_COMPAT_URL_KEY
        /\ dict_get d2 SDK_URL_KEY = dict_get d' SDK_URL_KEY).
Proof.
  intros Hd H. split.
  - rewrite (resolve_config_start path w d Hd) in H.
    destruct (complete_api_key d _) as [[[d1 c1]|e] w0] eqn:Hkey; [|discriminate H].
    destruct (complete_api_key_frame _ _ _ _ _ Hkey) as [Hframe _].
    assert (Hb : dict_get d1 OPENAI_COMPAT_URL_KEY = dict_get d OPENAI_COMPAT_URL_KEY)
      by (apply Hframe; discriminate).
    assert (Hu : dict_get d1 SDK_URL_KEY = dict_get d SDK_URL_KEY)
      by (apply Hframe; discriminate).
    apply complete_endpoints_inv in H
      as [(H1 & H2 & -> & _) | (_ & choice & Hp & -> & _)].
    + left. rewrite <- (get_truthy_ext _ _ _ Hb), <- (get_truthy_ext _ _ _ Hu). auto.
    + right. exists (emit (EvPrint msg_no_env) w0), choice.
      split; [exact Hp|]. split.
      * rewrite with_endpoints_compat, with_endpoints_sdk.
        destruct (prompt_for_environment_choice _ _ _ Hp) as [-> | ->]; [left|right];
          repeat split; reflexivity.
      * intros d0 c0 w0x d0' c0' w0' Hinc Hp0 Hrun.
        rewrite (complete_endpoints_asked d0 c0 w0x Hinc), Hp0 in Hrun.
        injection Hrun as <- _.
        now rewrite !with_endpoints_compat, !with_endpoints_sdk.
  - intros w2 d2 c2 w2' Hs2 H2.
    destruct (resolve_config_endpoints path _ _ _ _ H) as [Tb Tu].
    rewrite (resolve_config_start path w2 d') in H2 by (rewrite Hs2; reflexivity).
    destruct (complete_api_key d' _) as [[[d1 c1]|e] w0] eqn:Hkey; [|discriminate H2].
    destruct (complete_api_key_frame _ _ _ _ _ Hkey) as [Hframe _].
    assert (Hb : dict_get d1 OPENAI_COMPAT_URL_KEY = dict_get d' OPENAI_COMPAT_URL_KEY)
      by (apply Hframe; discriminate).
    assert (Hu : dict_get d1 SDK_URL_KEY = dict_get d' SDK_URL_KEY)
      by (apply Hframe; discriminate).
    rewrite complete_endpoints_present in H2
      by (first [rewrite (get_truthy_ext _ _ _ Hb) | rewrite (get_truthy_ext _ _ _ Hu)];
          assumption).
    injection H2 as <- _ _. auto.
Qed.

(** C3. The region prompt is a function of the lines typed: it returns the
    international choice exactly for y and yes and the mainland choice
    exactly for n and no, whatever the case of the letters and the
    whitespace around them; any other line is answered with the complaint
    and a new prompt, however many came before; and on "maybe" then "YES"
    the international endpoints are stored after exactly one rejection. *)
Theorem region_prompt_function :
  (forall w1 w2, console w1 = console w2 ->
     fst (_prompt_for_environment w1) = fst (_prompt_for_environment w2)
     /\ console (snd (_prompt_for_environment w1))
        = console (snd (_prompt_for_environment w2)))
  /\ (forall line,
        (answer_of line = Some "intl"
         <-> lower (strip line) = "y" \/ lower (strip line) = "yes")
        /\ (answer_of line = Some "cn"
            <-> lower (strip line) = "n" \/ lower (strip line) = "no")
        /\ (answer_of line = None
            <-> ~ In (lower (strip line)) ["y"; "yes"; "n"; "no"]))
  /\ (forall pre word post,
        all_space pre = true -> all_space post = true ->
        answer_of (pre +:+ word +:+ post) = answer_of word)
  /\ (forall word word', lower word = lower word' -> answer_of word = answer_of word')
  /\ (forall w bad line rest choice,
        console w = bad ++ line :: rest ->
        Forall (fun l => answer_of l = None) bad ->
        answer_of line = Some choice ->
        exists w',
          _prompt_for_environment w = (Ok choice, w')
          /\ console w' = rest
          /\ trace w' = trace w ++ rejections bad
                        ++ [EvInput region_prompt; EvPrint (msg_selected choice)]
          /\ length (rejections bad) = 2 * length bad)
  /\ (forall w d changed,
        get_truthy d OPENAI_COMPAT_URL_KEY && get_truthy d SDK_URL_KEY = false ->
        console w = ["maybe"; "YES"] ->
        exists d' w',
          complete_endpoints d changed w = (Ok (d', true), w')
          /\ dict_get d' OPENAI_COMPAT_URL_KEY
             = Some (JStr "https://dashscope-intl.aliyuncs.com/compatible-mode/v1")
          /\ dict_get d' SDK_URL_KEY
             = Some (JStr "https://dashscope-intl.aliyuncs.com/api/v1")
          /\ trace w' = trace w ++ [EvPrint msg_no_env;
                                    EvInput region_prompt; EvPrint msg_invalid;
                                    EvInput region_prompt; EvPrint msg_intl]).
Proof.
  repeat apply conj.
  - intros w1 w2 Hc. unfold _prompt_for_environment. rewrite Hc.
    destruct (prompt_loop (console w2)) as [[r rest] evs]. cbn. auto.
  - intros line. auto using answer_of_intl, answer_of_cn, answer_of_none.
  - apply answer_of_surround.
  - apply answer_of_case.
  - intros w bad line rest choice Hc Hbad Hline.
    rewrite (prompt_for_environment_accepts w bad line rest choice Hc Hbad Hline).
    eexists. split; [reflexivity|]. rewrite emits_fields. cbn.
    repeat split. unfold rejections. clear. induction bad; cbn; lia.
  - intros w d changed Hinc Hc.
    rewrite (complete_endpoints_asked d changed w Hinc).
    rewrite (prompt_for_environment_accepts _ ["maybe"] "YES" [] "intl")
      by first [exact Hc | reflexivity | repeat constructor].
    eexists _, _. split; [reflexivity|].
    rewrite with_endpoints_compat, with_endpoints_sdk, emits_fields. cbn.
    rewrite <- app_assoc. repeat split.
Qed.

(** C4, at an input where the code departs from it.  The store holds the
    API key with an empty value, the key prompt is left empty and the
    mainland region is chosen, with the [dashscope] package installed.  At
    the end of the resolution pass the key is still the empty one that the
    pass itself reported as not found, yet the membership test of the last
    step passes: the empty key is assigned to the environment and to the
    module, with the closing message of a complete configuration and no
    warning. *)
Theorem partial_state_is_published :
  let w := {| store := Json (JObj [(API_KEY_KEY, JStr "")]); write_error := None;
              console := [""; "n"]; environ := ∅;
              dashscope := Some {| api_key := JNull; api_base := JNull |};
              trace := [] |} in
  exists d w1 w',
    resolve_config path w = (Ok (d, true), w1)
    /\ get_truthy d API_KEY_KEY = false
    /\ In (EvPrint msg_no_key) (trace w1)
    /\ load_key path w = (Ok tt, w')
    /\ environ w' !! API_KEY_KEY = Some ""
    /\ dashscope w' = Some {| api_key := JStr ""; api_base := JStr cn_sdk_url |}
    /\ trace w' = trace w1
                  ++ [EvWrite d; EvPrint (msg_saved path);
                      EvSetEnv API_KEY_KEY "";
                      EvSetEnv OPENAI_COMPAT_URL_KEY cn_compat_url;
                      EvSetEnv SDK_URL_KEY cn_sdk_url;
                      EvPrint msg_loaded].
Proof.
  cbn zeta. eexists _, _, _. split; [vm_compute; reflexivity|].
  split; [reflexivity|]. split; [vm_compute; auto|].
  split; [vm_compute; reflexivity|].
  split; [vm_compute; reflexivity|]. split; vm_compute; reflexivity.
Qed.

(** C5, at inputs where the code departs from it.  A store that holds the
    JSON array [[]], and a store whose bytes are not UTF-8, are stores that
    cannot be used as a configuration; the handler of the read names
    [JSONDecodeError] only, so neither is discarded with the warning:
    [load_key] raises, before it has printed or asked anything.  A store
    that [json.load] rejects is recovered from, the warning first. *)
Theorem corrupted_store_is_not_recovered :
  load_key path (fresh (Json (JArr [])) ["sk-test1234"; "y"])
  = (Raise AttributeError, fresh (Json (JArr [])) ["sk-test1234"; "y"])
  /\ load_key path (fresh Undecodable ["sk-test1234"; "y"])
     = (Raise UnicodeDecodeError, fresh Undecodable ["sk-test1234"; "y"])
  /\ fst (load_key path (fresh NotJson ["sk-test1234"; "y"])) = Ok tt
  /\ head (trace (snd (load_key path (fresh NotJson ["sk-test1234"; "y"]))))
     = Some (EvPrint (msg_corrupted path)).
Proof. repeat split; vm_compute; reflexivity. Qed.


(** C7, at the input where the code departs from it.  The store holds the
    API key with an empty value and the user leaves the key prompt empty:
    the secret prompt is shown, nothing is stored under the key, and yet the
    run ends with the empty key published and the closing message of a
    complete configuration; the warning is not among the events. *)
Theorem empty_stored_key_is_published :
  exists w',
    load_key path (fresh (Json (JObj [(API_KEY_KEY, JStr "")])) [""; "y"]) = (Ok tt, w')
    /\ store w' = Json (JObj [(API_KEY_KEY, JStr "");
                              (OPENAI_COMPAT_URL_KEY, JStr intl_compat_url);
                              (SDK_URL_KEY, JStr intl_sdk_url)])
    /\ environ w' !! API_KEY_KEY = Some ""
    /\ trace w' = [EvPrint msg_no_key; EvGetpass key_prompt;
                   EvPrint msg_no_env; EvInput region_prompt; EvPrint msg_intl;
                   EvWrite [(API_KEY_KEY, JStr "");
                            (OPENAI_COMPAT_URL_KEY, JStr intl_compat_url);
                            (SDK_URL_KEY, JStr intl_sdk_url)];
                   EvPrint (msg_saved path);
                   EvSetEnv API_KEY_KEY "";
                   EvSetEnv OPENAI_COMPAT_URL_KEY intl_compat_url;
                   EvSetEnv SDK_URL_KEY intl_sdk_url;
                   EvPrint msg_loaded].
Proof.
  eexists. split; [vm_compute; reflexivity|].
  split; [vm_compute; reflexivity|]. split; vm_compute; reflexivity.
Qed.

(** C8, as the code has it.  The key is shown as its first four and last
    four characters around three dots when it is longer than eight
    characters; as "Valid" when it is set, no longer than eight characters
    and not the text "Not Set"; as "Not Set" when it is not set, and also
    when it is set to that very text.  The shown text of a long key has
    eleven characters, so that a key longer than that does not occur in it. *)
Theorem masked_key_rule env :
  let shown := shown_key (display_config_summary env) in
  (forall key,
     env !! API_KEY_KEY = Some key -> 8 < String.length key ->
     exists a b,
       shown = a +:+ "..." +:+ b
       /\ String.length a = 4 /\ String.length b = 4
       /\ (exists t, key = a +:+ t) /\ (exists t, key = t +:+ b))
  /\ (env !! API_KEY_KEY = Some "abcdefghij" -> shown = "abcd...ghij")
  /\ (forall key,
        env !! API_KEY_KEY = Some key -> String.length key <= 8 ->
        key <> "Not Set" -> shown = "Valid")
  /\ (env !! API_KEY_KEY = Some "abcde" -> shown = "Valid")
  /\ (env !! API_KEY_KEY = Some "Not Set" -> shown = "Not Set")
  /\ (env !! API_KEY_KEY = None -> shown = "Not Set")
  /\ (forall key,
        env !! API_KEY_KEY = Some key -> 11 < String.length key ->
        ~ occurs_in key shown).
Proof.
  cbn zeta. unfold display_config_summary, environ_get. cbn [shown_key].
  repeat apply conj.
  - intros key -> Hlen. rewrite masked_key_long by assumption.
    destruct (slice_to_prefix 4 key ltac:(lia)) as [H1 H1'].
    destruct (slice_last_suffix 4 key ltac:(lia)) as [H2 H2'].
    exists (slice_to 4 key), (slice_last 4 key). auto.
  - now intros ->.
  - intros key -> Hlen Hne. now apply masked_key_short.
  - now intros ->.
  - now intros ->.
  - now intros ->.
  - intros key -> Hlen (pre & post & H).
    apply (f_equal String.length) in H.
    rewrite masked_key_length, !str_length_app in H by lia. lia.
Qed.

(** C9. The environment name is read off the compatible URL, or off the
    text "Not Set" when the variable is unset: International when "intl"
    occurs in it, whatever else does; otherwise Mainland China when
    "aliyuncs.com" occurs in it; otherwise, and so when the variable is
    unset, Unknown. *)
Theorem environment_name_inference env :
  let url := environ_get env OPENAI_COMPAT_URL_KEY "Not Set" in
  shown_environment (display_config_summary env) = "Alibaba Cloud " +:+ env_name url
  /\ (forall u, env !! OPENAI_COMPAT_URL_KEY = Some u -> url = u)
  /\ (occurs_in "intl" url -> env_name url = "International")
  /\ (~ occurs_in "intl" url -> occurs_in "aliyuncs.com" url ->
      env_name url = "Mainland China")
  /\ (~ occurs_in "intl" url -> ~ occurs_in "aliyuncs.com" url ->
      env_name url = "Unknown")
  /\ (env !! OPENAI_COMPAT_URL_KEY = None -> env_name url = "Unknown").
Proof.
  cbn zeta. repeat apply conj.
  - reflexivity.
  - unfold environ_get. now intros u ->.
  - intros H%contains_occurs. unfold env_name. now rewrite H.
  - intros H1%contains_false H2%contains_occurs. unfold env_name. now rewrite H1, H2.
  - intros H1%contains_false H2%contains_false. unfold env_name. now rewrite H1, H2.
  - unfold environ_get. now intros ->.
Qed.


End Claims.

(** ** The key prompt declined when no key is stored *)

(** The behaviour C7 describes, where the code has it: no key in the store
    and an empty answer at the key prompt; the pass goes on to the region,
    and the run ends with the warning and nothing published. *)
Lemma declined_absent_key_warns path w d kl bad line rest choice :
  store w = Json (JObj d) ->
  dict_get d API_KEY_KEY = None ->
  get_truthy d OPENAI_COMPAT_URL_KEY && get_truthy d SDK_URL_KEY = false ->
  strip kl = "" ->
  console w = kl :: bad ++ line :: rest ->
  Forall (fun l => answer_of l = None) bad ->
  answer_of line = Some choice ->
  exists w2 w',
    load_key path w = (Ok tt, w')
    /\ trace w' = trace w2 ++ [EvPrint msg_incomplete]
    /\ environ w' = environ w.
Proof.
  intros Hs Hk Hinc He Hc Hbad Hline.
  assert (Hd : starting_dict (store w) = Some d) by now rewrite Hs.
  assert (Hkl : key_lines d kl = [kl])
    by (unfold key_lines; now rewrite (get_truthy_absent _ _ Hk)).
  pose proof (resolve_config_run path w d kl bad line rest choice Hd Hinc) as Hrun.
  rewrite Hkl in Hrun. specialize (Hrun Hc Hbad Hline).
  rewrite (load_key_resolved path w _ _ _ Hrun).
  destruct (save_config_ok path (with_endpoints (with_key d kl) choice) true
              {| store := store w; write_error := write_error w; console := rest;
                 environ := environ w; dashscope := dashscope w;
                 trace := trace w ++ read_events path (store w) ++ key_events d
                          ++ [EvPrint msg_no_env] ++ rejections bad
                          ++ [EvInput region_prompt; EvPrint (msg_selected choice)] |})
    as (w2 & -> & _ & Henv & _).
  rewrite publish_config_incomplete.
  - exists w2. eexists. split; [reflexivity|]. cbn. auto.
  - cbn [forallb]. unfold dict_mem at 1.
    rewrite with_endpoints_other by discriminate.
    unfold with_key. rewrite (get_truthy_absent _ _ Hk), He. cbn [String.eqb].
    now rewrite Hk.
Qed.

(** * Instances *)



(** C2 at that run. *)
Lemma endpoints_sample :
  dict_get sample_dict OPENAI_COMPAT_URL_KEY = Some (JStr intl_compat_url)
  /\ forall w2 d2 c2 w2',
       store w2 = Json (JObj sample_dict) ->
       resolve_config sample_path w2 = (Ok (d2, c2), w2') ->
       dict_get d2 OPENAI_COMPAT_URL_KEY = dict_get sample_dict OPENAI_COMPAT_URL_KEY
       /\ dict_get d2 SDK_URL_KEY = dict_get sample_dict SDK_URL_KEY.
Proof.
  split; [reflexivity|].
  apply (endpoints_set_together sample_path sample_world [] sample_dict true
           sample_resolved); vm_compute; reflexivity.
Defined.

(** C3 on the lines "maybe" and "YES". *)
Lemma region_prompt_sample :
  exists w',
    _prompt_for_environment (fresh Missing ["maybe"; "YES"]) = (Ok "intl", w')
    /\ console w' = [].
Proof.
  destruct region_prompt_function as (_ & _ & _ & _ & H & _).
  destruct (H (fresh Missing ["maybe"; "YES"]) ["maybe"] "YES" [] "intl")
    as (w' & H1 & H2 & _); [reflexivity | repeat constructor | reflexivity |].
  exists w'. auto.
Defined.

(** Values that are not strings are outside C1: a number under the
    API key, with both endpoints stored, is asked for nothing, and the first
    assignment to the environment raises. *)
Lemma non_string_key_raises :
  load_key sample_path
    (fresh (Json (JObj [(API_KEY_KEY, JInt 7);
                        (OPENAI_COMPAT_URL_KEY, JStr cn_compat_url);
                        (SDK_URL_KEY, JStr cn_sdk_url)])) [])
  = (Raise TypeError,
     fresh (Json (JObj [(API_KEY_KEY, JInt 7);
                        (OPENAI_COMPAT_URL_KEY, JStr cn_compat_url);
                        (SDK_URL_KEY, JStr cn_sdk_url)])) []).
Proof. vm_compute. reflexivity. Qed.


(** C8: a key set to the text "Not Set" is no longer than eight characters,
    is not shown as "Valid", and is shown in full. *)
Lemma not_set_key_shown_in_full :
  let env : gmap string string := {[ API_KEY_KEY := "Not Set" ]} in
  env !! API_KEY_KEY = Some "Not Set"
  /\ String.length "Not Set" <= 8
  /\ shown_key (display_config_summary env) <> "Valid"
  /\ shown_key (display_config_summary env) = "Not Set".
Proof. cbn zeta. repeat split; vm_compute; first [reflexivity | lia | discriminate]. Qed.

(** C8, amended, at the key of ten letters. *)
Lemma masked_key_sample :
  shown_key (display_config_summary {[ API_KEY_KEY := "abcdefghij" ]}) = "abcd...ghij".
Proof.
  destruct (masked_key_rule {[ API_KEY_KEY := "abcdefghij" ]}) as (_ & H & _).
  apply H. reflexivity.
Defined.

(** C9 at the international URL. *)
Lemma environment_name_sample :
  env_name (environ_get {[ OPENAI_COMPAT_URL_KEY := intl_compat_url ]}
                        OPENAI_COMPAT_URL_KEY "Not Set")
  = "International".
Proof.
  destruct (environment_name_inference {[ OPENAI_COMPAT_URL_KEY := intl_compat_url ]})
    as (_ & _ & H & _).
  apply H. exists "https://dashscope-", ".aliyuncs.com/compatible-mode/v1". reflexivity.
Defined.


(** * Further properties *)

(** ** The region prompt, whatever is typed *)

Lemma prompt_loop_inv lines r rest evs :
  prompt_loop lines = (r, rest, evs) ->
  (exists choice bad line,
     r = Ok choice /\ lines = bad ++ line :: rest
     /\ Forall (fun l => answer_of l = None) bad /\ answer_of line = Some choice
     /\ evs = rejections bad ++ [EvInput region_prompt; EvPrint (msg_selected choice)])
  \/ (r = Raise EOFError /\ rest = []
      /\ Forall (fun l => answer_of l = None) lines
      /\ evs = rejections lines ++ [EvInput region_prompt]).
Proof.
  revert r rest evs. induction lines as [|l lines IH]; intros r rest evs H.
  - cbn in H. injection H as <- <- <-. right. repeat split. constructor.
  - rewrite prompt_loop_cons in H. destruct (answer_of l) as [choice|] eqn:Hl.
    + injection H as <- <- <-. left. exists choice, [], l. repeat split.
      * constructor.
      * exact Hl.
    + destruct (prompt_loop lines) as [[r0 rest0] evs0] eqn:Hp.
      injection H as <- <- <-.
      destruct (IH _ _ _ eq_refl)
        as [(choice & bad & line & -> & -> & Hbad & Hline & ->) | (-> & -> & Hbad & ->)].
      * left. exists choice, (l :: bad), line. repeat split; auto.
      * right. repeat split; auto.
Qed.

Lemma answer_of_values line choice :
  answer_of line = Some choice -> choice = "intl" \/ choice = "cn".
Proof.
  unfold answer_of. destruct (str_in _ ["y"; "yes"]); [intros [= <-]; auto|].
  destruct (str_in _ ["n"; "no"]); [intros [= <-]; auto | discriminate].
Qed.

(** X1. [_prompt_for_environment] returns "intl" or "cn", as its docstring
    says, having read the lines up to the first one it accepts and no
    further, every line before it being rejected with the complaint; or it
    raises [EOFError], when every line there was is rejected.  It touches
    nothing but the console and the trace. *)
Theorem prompt_returns_choice_or_eof w r w' :
  _prompt_for_environment w = (r, w') ->
  same_files w w'
  /\ ((exists choice bad line,
         r = Ok choice /\ (choice = "intl" \/ choice = "cn")
         /\ console w = bad ++ line :: console w'
         /\ Forall (fun l => answer_of l = None) bad
         /\ answer_of line = Some choice
         /\ trace w' = trace w ++ rejections bad
                       ++ [EvInput region_prompt; EvPrint (msg_selected choice)])
      \/ (r = Raise EOFError /\ console w' = []
          /\ Forall (fun l => answer_of l = None) (console w)
          /\ trace w' = trace w ++ rejections (console w) ++ [EvInput region_prompt])).
Proof.
  intros H. split; [eauto using prompt_for_environment_files|].
  unfold _prompt_for_environment in H.
  destruct (prompt_loop (console w)) as [[r0 rest] evs] eqn:Hp.
  injection H as <- <-. rewrite emits_fields. cbn [console trace with_console].
  destruct (prompt_loop_inv _ _ _ _ Hp)
    as [(choice & bad & line & -> & Hc & Hbad & Hline & ->) | (-> & -> & Hbad & ->)].
  - left. exists choice, bad, line. repeat split; eauto using answer_of_values.
  - right. auto.
Qed.

Lemma prompt_returns_choice_or_eof_sample :
  same_files (fresh Missing ["what?"; " N "; "later"])
             (snd (_prompt_for_environment (fresh Missing ["what?"; " N "; "later"]))).
Proof.
  apply (prompt_returns_choice_or_eof (fresh Missing ["what?"; " N "; "later"])
           (fst (_prompt_for_environment (fresh Missing ["what?"; " N "; "later"])))).
  apply surjective_pairing.
Defined.

(** ** Input that ends, and stores that cannot be used *)

Lemma prompt_for_environment_eof w :
  Forall (fun l => answer_of l = None) (console w) ->
  _prompt_for_environment w =
  (Raise EOFError,
   with_console [] (emits (rejections (console w) ++ [EvInput region_prompt]) w)).
Proof.
  intros H. unfold _prompt_for_environment. now rewrite (prompt_loop_eof _ H).
Qed.

Section Endings.

Variable path : string.

(** X2. When the input ends before the region prompt got an answer it
    accepts, with the key prompt answered before it or not shown, [load_key]
    raises [EOFError] and has written and published nothing: a key just
    typed is lost.  The same holds when the input has ended at the key
    prompt already. *)
Theorem input_ends_before_an_answer w d :
  starting_dict (store w) = Some d ->
  (forall kl bad,
     get_truthy d OPENAI_COMPAT_URL_KEY && get_truthy d SDK_URL_KEY = false ->
     console w = key_lines d kl ++ bad ->
     Forall (fun l => answer_of l = None) bad ->
     exists w',
       load_key path w = (Raise EOFError, w')
       /\ same_files w w' /\ console w' = []
       /\ trace w' = trace w ++ read_events path (store w) ++ key_events d
                     ++ [EvPrint msg_no_env] ++ rejections bad ++ [EvInput region_prompt])
  /\ (get_truthy d API_KEY_KEY = false ->
      console w = [] ->
      exists w',
        load_key path w = (Raise EOFError, w')
        /\ same_files w w' /\ console w' = []
        /\ trace w' = trace w ++ read_events path (store w)
                      ++ [EvPrint msg_no_key; EvGetpass key_prompt]).
Proof.
  intros Hd. split.
  - intros kl bad Hinc Hc Hbad.
    assert (Hr : resolve_config path w =
                 (Raise EOFError,
                  {| store := store w; write_error := write_error w; console := [];
                     environ := environ w; dashscope := dashscope w;
                     trace := trace w ++ read_events path (store w) ++ key_events d
                              ++ [EvPrint msg_no_env] ++ rejections bad
                              ++ [EvInput region_prompt] |})).
    { rewrite (resolve_config_start path w d Hd).
      rewrite (complete_api_key_run d _ kl bad)
        by (rewrite after_read_fields; exact Hc).
      rewrite complete_endpoints_asked.
      2:{ rewrite !(get_truthy_ext (with_key d kl) d)
            by (apply with_key_frame; discriminate).
          exact Hinc. }
      rewrite prompt_for_environment_eof
        by (rewrite ?emits_fields, ?after_read_fields; exact Hbad).
      rewrite !emits_fields, after_read_fields. cbn. f_equal. f_equal.
      now rewrite <- !app_assoc. }
    eexists. split; [exact (load_key_raised path w _ _ Hr)|].
    unfold same_files. cbn. auto 10.
  - intros Hk Hc.
    assert (Hr : resolve_config path w =
                 (Raise EOFError,
                  {| store := store w; write_error := write_error w; console := [];
                     environ := environ w; dashscope := dashscope w;
                     trace := trace w ++ read_events path (store w)
                              ++ [EvPrint msg_no_key; EvGetpass key_prompt] |})).
    { rewrite (resolve_config_start path w d Hd).
      rewrite complete_api_key_eof
        by (rewrite ?after_read_fields; assumption).
      rewrite emits_fields, after_read_fields. cbn. rewrite Hc. f_equal. f_equal.
      now rewrite <- !app_assoc. }
    eexists. split; [exact (load_key_raised path w _ _ Hr)|].
    unfold same_files. cbn. auto 10.
Qed.

(** X3. A store that cannot be decoded, or that holds JSON other than an
    object, makes [load_key] raise before it prints, asks, writes or
    publishes anything: the world is left exactly as it was. *)
Theorem unusable_store_raises w :
  (store w = Undecodable -> load_key path w = (Raise UnicodeDecodeError, w))
  /\ (forall v, store w = Json v -> is_object v = false ->
        load_key path w = (Raise AttributeError, w)).
Proof.
  split.
  - intros Hs. apply load_key_raised.
    unfold resolve_config, mbind, M_bind. cbv beta iota.
    now rewrite (read_config_undecodable path w Hs).
  - intros v Hs Hv. apply load_key_raised, (resolve_config_not_a_dict path w v Hs).
    intros d ->. discriminate Hv.
Qed.



End Endings.

Lemma input_ends_sample :
  exists w',
    load_key sample_path (fresh (Json (JObj [])) ["sk-test1234"; "maybe"])
    = (Raise EOFError, w')
    /\ same_files (fresh (Json (JObj [])) ["sk-test1234"; "maybe"]) w'.
Proof.
  destruct (input_ends_before_an_answer sample_path
              (fresh (Json (JObj [])) ["sk-test1234"; "maybe"]) [] eq_refl) as [H _].
  destruct (H "sk-test1234" ["maybe"]) as (w' & H1 & H2 & _);
    [reflexivity | reflexivity | repeat constructor |].
  exists w'. auto.
Defined.

Lemma unusable_store_sample :
  load_key sample_path (fresh (Json (JStr "oops")) ["y"])
  = (Raise AttributeError, fresh (Json (JStr "oops")) ["y"]).
Proof.
  destruct (unusable_store_raises sample_path (fresh (Json (JStr "oops")) ["y"]))
    as [_ H].
  apply (H (JStr "oops")); reflexivity.
Defined.


(** ** What a run leaves behind *)

(** Publishing shows nothing of the console and never writes; it leaves the
    other variables of the environment alone, and a missing [dashscope]
    module missing. *)
Lemma publish_config_effects d w r w' :
  publish_config d w = (r, w') ->
  (forall x, recognized x = false -> environ w' !! x = environ w !! x)
  /\ (dashscope w = None -> dashscope w' = None)
  /\ exists evs,
       trace w' = trace w ++ evs
       /\ forall e, In e evs ->
            match e with
            | EvPrint _ | EvSetEnv _ _ => True
            | _ => False
            end.
Proof.
  destruct w as [st we con env ds tr]. unfold publish_config, getitem, dict_mem.
  cbn [forallb].
  destruct (dict_get d API_KEY_KEY) as [vk|];
    destruct (dict_get d OPENAI_COMPAT_URL_KEY) as [vb|];
    destruct (dict_get d SDK_URL_KEY) as [vu|];
    try (run; intros [= _ <-]; cbn;
         split; [reflexivity|]; split; [auto|];
         eexists; split; [reflexivity|];
         intros e [<-|[]]; exact I).
  destruct vk, vb, vu, ds; assign_cases; intros [= _ <-]; cbn;
    (split;
     [intros x (H1 & H2 & H3)%recognized_false;
      rewrite ?lookup_insert_ne
        by (intros E; symmetry in E;
            first [exact (H1 E) | exact (H2 E) | exact (H3 E)]);
      reflexivity|]);
    (split; [first [discriminate | auto]|]);
    eexists;
    (split; [first [reflexivity | rewrite <- ?app_assoc; reflexivity
                   | symmetry; apply app_nil_r]|]);
    cbn; intros e H; repeat (destruct H as [<-|H]; [exact I|]); destruct H.
Qed.

Section Leftovers.

Variable path : string.





(** X7. Whatever happens in a run, [load_key] leaves every variable of the
    environment but the three alone, does not touch the file system's
    willingness to be written, and leaves a [dashscope] module that failed
    to import missing. *)
Theorem other_variables_untouched w r w' :
  load_key path w = (r, w') ->
  (forall x, recognized x = false -> environ w' !! x = environ w !! x)
  /\ write_error w' = write_error w
  /\ (dashscope w = None -> dashscope w' = None).
Proof.
  intros H. destruct (resolve_config path w) as [[[d c]|e] w1] eqn:Hr.
  - destruct (resolve_config_files path _ _ _ Hr) as (_ & Hw1 & He1 & Hd1).
    rewrite (load_key_resolved path w d c w1 Hr) in H.
    destruct (save_config_ok path d c w1) as (w2 & Hsave & _ & He2 & Hd2 & Hw2 & _).
    rewrite Hsave in H.
    destruct (publish_config_frame d w2 _ _ H) as (_ & _ & Hw).
    destruct (publish_config_effects d w2 _ _ H) as (He & Hd & _).
    split; [intros x Hx; rewrite (He x Hx); congruence|].
    split; [congruence|]. intros Hn. apply Hd. congruence.
  - rewrite (load_key_raised path w e w1 Hr) in H. injection H as _ <-.
    destruct (resolve_config_files path _ _ _ Hr) as (_ & Hw1 & He1 & Hd1).
    split; [intros; congruence|]. split; congruence.
Qed.

(** X8. At the end of every resolution pass that returns, both endpoints
    are there and true: a stored endpoint that is empty, or anything false,
    does not survive.  So the API key is the only one of the three that can
    be missing when the configuration is published or warned about. *)
Theorem only_the_key_can_be_missing w d c w1 :
  resolve_config path w = (Ok (d, c), w1) ->
  get_truthy d OPENAI_COMPAT_URL_KEY = true
  /\ get_truthy d SDK_URL_KEY = true
  /\ all_present d = dict_mem d API_KEY_KEY.
Proof.
  intros H. destruct (resolve_config_endpoints path _ _ _ _ H) as [Hb Hu].
  split; [exact Hb|]. split; [exact Hu|].
  unfold all_present. cbn [forallb]. unfold get_truthy in Hb, Hu. unfold dict_mem at 2 3.
  destruct (dict_get d OPENAI_COMPAT_URL_KEY); [|discriminate Hb].
  destruct (dict_get d SDK_URL_KEY); [|discriminate Hu].
  now rewrite !andb_true_r.
Qed.

End Leftovers.

(** ** Running again *)


Section Again.

Variable path : string.


End Again.

(** ** The key as it is stored *)

Lemma append_empty s : "" +:+ s = s.
Proof. reflexivity. Qed.

Lemma lstrip_parts s : exists pre, s = pre +:+ lstrip s /\ all_space pre = true.
Proof.
  induction s as [|c s (pre & IH & Hpre)]; [now exists ""|]. cbn [lstrip].
  destruct (is_space c) eqn:Hc.
  - exists (String c pre). rewrite append_cons.
    split; [now rewrite <- IH | cbn [all_space]; now rewrite Hc, Hpre].
  - now exists "".
Qed.

Lemma rstrip_parts s : exists post, s = rstrip s +:+ post /\ all_space post = true.
Proof.
  induction s as [|c s (post & IH & Hpost)]; [now exists ""|]. cbn [rstrip].
  destruct (rstrip s) as [|a r] eqn:Hr.
  - rewrite append_empty in IH. destruct (is_space c) eqn:Hc.
    + exists (String c post). rewrite append_empty.
      split; [now rewrite <- IH | cbn [all_space]; now rewrite Hc, Hpost].
    + exists post. rewrite append_cons, append_empty.
      split; [now rewrite <- IH | exact Hpost].
  - exists post. rewrite append_cons.
    split; [now rewrite <- IH | exact Hpost].
Qed.

Lemma lstrip_head s c : head_char (lstrip s) = Some c -> is_space c = false.
Proof.
  induction s as [|a s IH]; [discriminate|]. cbn [lstrip].
  destruct (is_space a) eqn:Ha; [exact IH|]. cbn. now intros [= <-].
Qed.

Lemma rstrip_head s c : head_char (rstrip s) = Some c -> head_char s = Some c.
Proof.
  destruct s as [|a s]; [discriminate|]. cbn [rstrip head_char].
  destruct (rstrip s); [destruct (is_space a)|]; cbn; congruence.
Qed.

Lemma rstrip_last s c : last_char (rstrip s) = Some c -> is_space c = false.
Proof.
  induction s as [|a s IH]; [discriminate|]. cbn [rstrip].
  destruct (rstrip s) as [|b r] eqn:Hr.
  - destruct (is_space a) eqn:Ha; [discriminate|]. cbn. now intros [= <-].
  - exact IH.
Qed.

Lemma rstrip_idem s : rstrip (rstrip s) = rstrip s.
Proof.
  induction s as [|a s IH]; [reflexivity|]. cbn [rstrip].
  destruct (rstrip s) as [|b r] eqn:Hr.
  - destruct (is_space a) eqn:Ha; [reflexivity|]. cbn. now rewrite Ha.
  - change (rstrip (String a (String b r))) with
      (match rstrip (String b r) with
       | EmptyString => if is_space a then EmptyString else String a EmptyString
       | r' => String a r'
       end).
    now rewrite IH.
Qed.

Lemma strip_idem s : strip (strip s) = strip s.
Proof.
  unfold strip. destruct (rstrip (lstrip s)) as [|c r] eqn:Hr; [reflexivity|].
  assert (Hc : is_space c = false).
  { apply (lstrip_head s), rstrip_head. now rewrite Hr. }
  cbn [lstrip]. rewrite Hc, <- Hr. apply rstrip_idem.
Qed.

(** X10. The key the key step stores is the line typed with the whitespace
    around it removed and nothing else: the line is that key between two
    runs of whitespace, the key is not empty, it neither begins nor ends
    with whitespace, and stripping it again changes nothing. *)
Theorem typed_key_is_stored_trimmed d w d1 w1 :
  complete_api_key d w = (Ok (d1, true), w1) ->
  exists line rest key pre post,
    console w = line :: rest /\ console w1 = rest
    /\ dict_get d1 API_KEY_KEY = Some (JStr key)
    /\ line = pre +:+ key +:+ post
    /\ all_space pre = true /\ all_space post = true
    /\ key <> ""
    /\ (forall c, head_char key = Some c -> is_space c = false)
    /\ (forall c, last_char key = Some c -> is_space c = false)
    /\ strip key = key.
Proof.
  intros H. apply complete_api_key_inv in H
    as [(_ & _ & Hc & _) | (_ & line & rest & Hcon & -> & [(_ & _ & Hc) | (Hne & -> & _)])];
    try discriminate Hc.
  destruct (lstrip_parts line) as (pre & Hpre & Spre).
  destruct (rstrip_parts (lstrip line)) as (post & Hpost & Spost).
  exists line, rest, (strip line), pre, post.
  split; [exact Hcon|]. split; [now rewrite emits_fields|].
  split; [apply dict_get_set_eq|].
  split; [unfold strip; now rewrite <- Hpost|].
  split; [exact Spre|]. split; [exact Spost|]. split; [exact Hne|].
  split; [intros c Hc; apply (lstrip_head line), rstrip_head; exact Hc|].
  split; [intros c; apply rstrip_last | apply strip_idem].
Qed.

(** ** The [dashscope] package is optional *)

Lemma agree_fields w1 w2 :
  agree w1 w2 ->
  w2 = {| store := store w1; write_error := write_error w1; console := console w1;
          environ := environ w1; dashscope := dashscope w2; trace := trace w1 |}.
Proof. destruct w2. intros (H1 & H2 & H3 & H4 & H5). cbn in *. now subst. Qed.

(** Proves that a library call respects the module: both worlds are laid
    open and the call is computed on each. *)
Ltac respects_call :=
  let w1 := fresh "w" in
  let w2 := fresh "w" in
  let Ha := fresh "Ha" in
  intros w1 w2 Ha; rewrite (agree_fields w1 w2 Ha);
  destruct w1 as [st we con env ds tr]; cbn [store write_error console environ trace dashscope];
  run;
  repeat match goal with
         | |- context [match ?x with _ => _ end] => is_var x; destruct x
         | |- context [if ?b then _ else _] => destruct b
         end;
  run; (split; [reflexivity | unfold agree; cbn; auto 10]).

Lemma respects_ret {A} (a : A) : respects (mret a).
Proof. respects_call. Qed.

Lemma respects_raise {A} e : respects (raise e : M A).
Proof. respects_call. Qed.

Lemma respects_bind {A B} (m : M A) (k : A -> M B) :
  respects m -> (forall a, respects (k a)) -> respects (m ≫= k).
Proof.
  intros Hm Hk w1 w2 Ha. unfold mbind, M_bind.
  destruct (Hm w1 w2 Ha) as [Hf Hs].
  destruct (m w1) as [[a1|e1] w1'], (m w2) as [[a2|e2] w2']; cbn in Hf, Hs;
    try discriminate Hf.
  - injection Hf as ->. now apply Hk.
  - injection Hf as ->. auto.
Qed.

Lemma respects_try {A} (body : M A) handler :
  respects body -> (forall e h, handler e = Some h -> respects h) ->
  respects (try_except body handler).
Proof.
  intros Hm Hh w1 w2 Ha. unfold try_except.
  destruct (Hm w1 w2 Ha) as [Hf Hs].
  destruct (body w1) as [[a1|e1] w1'], (body w2) as [[a2|e2] w2']; cbn in Hf, Hs;
    try discriminate Hf.
  - injection Hf as ->. auto.
  - injection Hf as ->. destruct (handler e2) as [h|] eqn:He; [|auto].
    now apply (Hh e2 h He).
Qed.

Lemma respects_print line : respects (print line).
Proof. respects_call. Qed.

Lemma respects_read_line ask : respects (read_line ask).
Proof. respects_call. Qed.

Lemma respects_path_exists : respects path_exists.
Proof. respects_call. Qed.

Lemma respects_json_load : respects json_load.
Proof. respects_call. Qed.

Lemma respects_json_dump d : respects (json_dump d).
Proof. respects_call. Qed.

Lemma respects_environ_set k v : respects (environ_set k v).
Proof. respects_call. Qed.

Lemma respects_getitem d k : respects (getitem d k).
Proof. unfold getitem. destruct (dict_get d k); [apply respects_ret | apply respects_raise]. Qed.

Lemma respects_as_dict v : respects (as_dict v).
Proof. destruct v; first [apply respects_ret | apply respects_raise]. Qed.

Lemma respects_prompt : respects _prompt_for_environment.
Proof.
  intros w1 w2 Ha. rewrite (agree_fields w1 w2 Ha). unfold _prompt_for_environment.
  cbn [console]. destruct (prompt_loop (console w1)) as [[r rest] evs].
  rewrite !emits_fields. cbn. split; [reflexivity|]. unfold agree. cbn. auto.
Qed.

(** Configuring the module when it is there, for a dict that has the two
    keys it reads, and going on. *)
Lemma respects_configure {B} d (k : M B) :
  dict_mem d API_KEY_KEY = true -> dict_mem d SDK_URL_KEY = true ->
  respects k ->
  respects (installed ← dashscope_installed;
            (if installed : bool then
               k' ← getitem d API_KEY_KEY;
               set_api_key k';;
               u' ← getitem d SDK_URL_KEY;
               set_api_base u'
             else mret tt);;
            k).
Proof.
  unfold dict_mem, getitem.
  destruct (dict_get d API_KEY_KEY); [|discriminate].
  destruct (dict_get d SDK_URL_KEY); [|discriminate]. intros _ _ Hk.
  intros w1 w2 Ha.
  destruct w1 as [st1 we1 con1 env1 ds1 tr1], w2 as [st2 we2 con2 env2 ds2 tr2].
  destruct Ha as (H1 & H2 & H3 & H4 & H5). cbn in H1, H2, H3, H4, H5. subst.
  destruct ds1, ds2; run; apply Hk; unfold agree; cbn; auto 10.
Qed.

Create HintDb respects.
#[local] Hint Resolve respects_ret respects_raise respects_print respects_read_line
  respects_path_exists respects_json_load respects_json_dump respects_environ_set
  respects_getitem respects_as_dict respects_prompt : respects.

Section Optional.

Variable path : string.

Lemma respects_resolve_config : respects (resolve_config path).
Proof.
  unfold resolve_config, read_config, complete_api_key, complete_endpoints, getpass.
  apply respects_bind.
  { apply respects_bind; [auto with respects|]. intros [].
    - apply respects_try; [auto with respects|]. intros e h.
      destruct e; try discriminate. intros [= <-].
      apply respects_bind; auto with respects.
    - auto with respects. }
  intros loaded. apply respects_bind; [auto with respects|]. intros d.
  apply respects_bind.
  { destruct (negb (get_truthy d API_KEY_KEY)); [|auto with respects].
    apply respects_bind; [auto with respects|]. intros _.
    apply respects_bind; [auto with respects|]. intros answer.
    destruct (negb (String.eqb (strip answer) "")); auto with respects. }
  intros [d1 c1].
  destruct (negb (get_truthy d1 OPENAI_COMPAT_URL_KEY) || negb (get_truthy d1 SDK_URL_KEY));
    [|auto with respects].
  apply respects_bind; [auto with respects|]. intros _.
  apply respects_bind; [auto with respects|]. intros choice.
  destruct (String.eqb choice "intl"); auto with respects.
Qed.

Lemma respects_save_config d c : respects (save_config path d c).
Proof.
  unfold save_config. destruct c; [|auto with respects].
  apply respects_try.
  - apply respects_bind; auto with respects.
  - intros e h. destruct e; try discriminate. intros [= <-]. auto with respects.
Qed.

Lemma respects_publish_config d : respects (publish_config d).
Proof.
  unfold publish_config.
  destruct (forallb _ _) eqn:Hall; [|auto with respects].
  cbn [forallb] in Hall. apply andb_prop in Hall as [Hk Hall].
  apply andb_prop in Hall as [_ Hall]. apply andb_prop in Hall as [Hu _].
  repeat (apply respects_bind; [solve [auto with respects] | intros ?]).
  apply respects_configure; auto with respects.
Qed.

(** X11. Whether the [dashscope] package could be imported makes no
    difference to a run of [load_key]: the result, the store, the console,
    the environment and the trace are the same with any module as with
    another or with none. *)
Theorem dashscope_is_optional w ds :
  fst (load_key path (with_dashscope ds w)) = fst (load_key path w)
  /\ agree (snd (load_key path (with_dashscope ds w))) (snd (load_key path w)).
Proof.
  assert (H : respects (load_key path)).
  { unfold load_key. apply respects_bind; [apply respects_resolve_config|].
    intros [d c]. apply respects_bind; [apply respects_save_config|].
    intros _. apply respects_publish_config. }
  apply H. unfold agree. cbn. auto.
Qed.

End Optional.

(** ** The script *)



Section Script.

Variable path : string.


End Script.

(** ** A key that is declined *)

Section Declined.

Variable path : string.


End Declined.

(** * Further instances *)



Lemma other_variables_sample :
  environ (snd (load_key sample_path
                  {| store := Json (JObj []); write_error := None;
                     console := ["sk-test1234"; "y"];
                     environ := {[ "HOME" := "/root" ]};
                     dashscope := None; trace := [] |})) !! "HOME"
  = Some "/root".
Proof.
  destruct (other_variables_untouched sample_path
              {| store := Json (JObj []); write_error := None;
                 console := ["sk-test1234"; "y"];
                 environ := {[ "HOME" := "/root" ]};
                 dashscope := None; trace := [] |}
              (fst (load_key sample_path
                      {| store := Json (JObj []); write_error := None;
                         console := ["sk-test1234"; "y"];
                         environ := {[ "HOME" := "/root" ]};
                         dashscope := None; trace := [] |}))
              (snd (load_key sample_path
                      {| store := Json (JObj []); write_error := None;
                         console := ["sk-test1234"; "y"];
                         environ := {[ "HOME" := "/root" ]};
                         dashscope := None; trace := [] |})))
    as (H & _); [apply surjective_pairing|].
  rewrite (H "HOME") by reflexivity. reflexivity.
Defined.

Lemma only_the_key_sample :
  all_present sample_dict = dict_mem sample_dict API_KEY_KEY.
Proof.
  destruct (only_the_key_can_be_missing sample_path sample_world sample_dict true
              sample_resolved) as (_ & _ & H); [vm_compute; reflexivity|].
  exact H.
Defined.


Lemma typed_key_sample :
  exists key,
    dict_get (dict_set [] API_KEY_KEY (JStr "sk-test1234")) API_KEY_KEY = Some (JStr key)
    /\ strip key = key.
Proof.
  destruct (typed_key_is_stored_trimmed [] (fresh Missing ["  sk-test1234 "; "y"])
              (dict_set [] API_KEY_KEY (JStr "sk-test1234"))
              (with_console ["y"]
                 (emits [EvPrint msg_no_key; EvGetpass key_prompt]
                    (fresh Missing ["  sk-test1234 "; "y"]))))
    as (line & rest & key & pre & post & _ & _ & H & _ & _ & _ & _ & _ & _ & H');
    [vm_compute; reflexivity|].
  exists key. auto.
Defined.


